(** * Singsations karaoke client: the persistence/fallback client of
  [lib/api.ts] and the recording session of [KaraokeRecording]
  ([components/song-selection.tsx]), embedded as Rocq functions.

  Conventions of the embedding.
  - A JavaScript [number] that holds a clock reading, an identifier or an
    amount is a [Z]; a counter obtained from [Array.length] is a [nat].
  - An ISO-8601 string written by [Date.prototype.toISOString] is
    identified with the epoch millisecond it denotes, so that
    [new Date(s).getTime()] is the identity on it.
  - A JavaScript object is a record; a key that may be absent from the
    object is a field of [option] type ([JSON.stringify] drops keys whose
    value is [undefined]).
  - [localStorage] is a record with one field per key the client uses; a
    key that was never set reads as [None] ([getItem] returns [null]).
  - The clock ([Date.now], [new Date()]), [Math.random] and [fetch] are
    oracles carried by the world; each use consumes one answer. *)

From Stdlib Require Import ZArith List String Ascii Bool Lia.
From Stdlib Require Import Permutation Sorted DecimalString.
From Stdlib Require DecimalZ.
Import ListNotations.

Local Open Scope string_scope.
Local Open Scope list_scope.
Local Open Scope Z_scope.

(** ** JavaScript built-ins used by the client *)

Module Js.

(** The line feed used by [join("\n")] and the double quote of the
    template literals of [exportUserData]. *)
Definition LF : ascii := Ascii.ascii_of_nat 10.
Definition DQUOTE : ascii := Ascii.ascii_of_nat 34.
Definition lf : string := String LF EmptyString.
Definition dquote : string := String DQUOTE EmptyString.

(** [String(n)] for an integral number. *)
Definition string_of_Z (z : Z) : string :=
  NilZero.string_of_int (Z.to_int z).

Definition string_of_nat (n : nat) : string :=
  string_of_Z (Z.of_nat n).

(** [Array.prototype.join] on an array of strings. *)
Fixpoint join (sep : string) (l : list string) : string :=
  match l with
  | [] => EmptyString
  | [x] => x
  | x :: rest => (x ++ sep ++ join sep rest)%string
  end.

(** [String.prototype.split] on a one-character separator. *)
Fixpoint split_at (sep : ascii) (s : string) : list string :=
  match s with
  | EmptyString => [EmptyString]
  | String c s' =>
      if Ascii.eqb c sep then EmptyString :: split_at sep s'
      else match split_at sep s' with
           | [] => [String c EmptyString]
           | w :: ws => String c w :: ws
           end
  end.

Definition lines (s : string) : list string := split_at LF s.

(** [x || ""] on an optional string: [undefined] and the empty string
    are both falsy. *)
Definition or_empty (x : option string) : string :=
  match x with
  | Some s => s
  | None => EmptyString
  end.

(** [JSON.parse(localStorage.getItem(k) || "[]")]. *)
Definition parse_or_empty {A : Type} (item : option (list A)) : list A :=
  match item with
  | Some l => l
  | None => []
  end.

(** [Array.prototype.filter(Boolean)] on an array of objects-or-null. *)
Fixpoint filter_Boolean {A : Type} (l : list (option A)) : list A :=
  match l with
  | [] => []
  | Some x :: l' => x :: filter_Boolean l'
  | None :: l' => filter_Boolean l'
  end.

(** [Array.prototype.sort(cmp)].  The language requires the sort to be
    stable, and for a consistent comparator the result is then unique,
    whichever algorithm the engine runs; the embedding is the stable
    insertion sort.  [cmp x y > 0] places [x] after [y]. *)
Fixpoint insert {A : Type} (cmp : A -> A -> Z) (x : A) (l : list A) : list A :=
  match l with
  | [] => [x]
  | y :: l' => if 0 <? cmp x y then y :: insert cmp x l' else x :: y :: l'
  end.

Definition sort {A : Type} (cmp : A -> A -> Z) (l : list A) : list A :=
  fold_right (insert cmp) [] l.

(** [Array.prototype.slice(0, e)]: a negative end counts from the end of
    the array. *)
Definition slice0 {A : Type} (l : list A) (e : Z) : list A :=
  let len := Z.of_nat (List.length l) in
  let final := if e <? 0 then Z.max (len + e) 0 else Z.min e len in
  firstn (Z.to_nat final) l.

(** Truthiness of an optional number: [undefined] and [0] are falsy. *)
Definition truthy_number (x : option Z) : bool :=
  match x with
  | Some z => negb (z =? 0)
  | None => false
  end.

End Js.

(** ** Data model of [lib/api.ts] *)

Definition Timestamp := Z.

(** [interface User], together with the [password] key that the fallback
  store keeps next to it ([{ ...newUser, password }]). *)
Module User.
Record t := mk {
  id : Z;
  email : string;
  phone : option string;
  name : option string;
  created_at : Timestamp;
  password : option string
}.

(** [{ ...u, password }] *)
Definition with_password (u : t) (p : string) : t :=
  mk (id u) (email u) (phone u) (name u) (created_at u) (Some p).

(** [const { password, ...userWithoutPassword } = u] *)
Definition without_password (u : t) : t :=
  mk (id u) (email u) (phone u) (name u) (created_at u) None.
End User.

Module AuthResponse.
Record t := mk {
  success : bool;
  message : string;
  user : option User.t;
  token : option string
}.
End AuthResponse.

Module PurchaseData.
Record t := mk {
  user_id : Z;
  song_title : string;
  artist_name : string;
  category : string;
  video_url : string;
  amount : Z
}.
End PurchaseData.

(** [{ ...purchaseData, id, purchased_at }] *)
Module Purchase.
Record t := mk {
  data : PurchaseData.t;
  id : Z;
  purchased_at : Timestamp
}.
End Purchase.

Inductive EventType :=
| signup_event
| signin_event
| song_selection
| recording_complete
| payment.

Definition EventType_eqb (a b : EventType) : bool :=
match a, b with
| signup_event, signup_event
| signin_event, signin_event
| song_selection, song_selection
| recording_complete, recording_complete
| payment, payment => true
| _, _ => false
end.

(** The [details] objects the client builds. *)
Module Details.
Record t := mk {
  songTitle : option string;
  category : option string;
  paymentAmount : option Z;
  email : option string;
  phone : option string;
  name : option string
}.
Definition empty : t := mk None None None None None None.
End Details.

Module ActivityLog.
Record t := mk {
  id : string;
  userId : Z;
  eventType : EventType;
  timestamp : Timestamp;
  details : option Details.t
}.
End ActivityLog.

Module UserReport.
Record t := mk {
  userId : Z;
  email : string;
  artistName : option string;
  totalSignIns : nat;
  songsSelected : nat;
  recordingsCompleted : nat;
  paymentsCompleted : nat;
  lastActivity : Timestamp;
  activities : list ActivityLog.t
}.
End UserReport.

(** [{ ...report, totalActivity }], the elements [getTopUsers] returns. *)
Module RankedReport.
Record t := mk {
  report : UserReport.t;
  totalActivity : nat
}.
End RankedReport.

(** [{ success, message }], the result of [savePurchase]. *)
Module SaveResult.
Record t := mk {
  success : bool;
  message : string
}.
End SaveResult.

(** ** The world: [localStorage] and the host oracles *)

Module LocalStorage.
Record t := mk {
  fallback_users : option (list User.t);
  auth_token : option string;
  user_data : option User.t;
  user_activities : option (list ActivityLog.t);
  user_purchases : option (list Purchase.t)
}.
Definition empty : t := mk None None None None None.
End LocalStorage.

(** What [await fetch(...)] followed by [response.json()] can do: the
  promise rejects (transport error, or the abort of the timeout), or a
  response arrives with its [ok] flag and a body that parses or not. *)
Inductive FetchResult :=
| Rejected
| Response (ok : bool) (json : option SaveResult.t).

(** The writes and remote calls an operation performs, in order. *)
Inductive Effect :=
| SetItem (key : string)
| RemoveItem (key : string)
| Fetch (url : string).

Module World.
Record t := mk {
  storage : LocalStorage.t;
  clock : nat -> Z;
  reads : nat;
  entropy : nat -> string;
  draws : nat;
  remote : nat -> FetchResult;
  fetches : nat;
  trace : list Effect
}.
End World.

(** The state monad of the client's operations. *)
Definition M (A : Type) : Type := World.t -> A * World.t.

Definition ret {A : Type} (a : A) : M A := fun w => (a, w).

Definition bind {A B : Type} (m : M A) (k : A -> M B) : M B :=
fun w => let (a, w') := m w in k a w'.

Declare Scope api_scope.
Delimit Scope api_scope with api.
Notation "x <- m ;; k" := (bind m (fun x => k))
(at level 61, m at next level, right associativity) : api_scope.
Notation "m ;; k" := (bind m (fun _ => k))
(at level 61, right associativity) : api_scope.
Local Open Scope api_scope.

Definition exec {A : Type} (m : M A) (w : World.t) : World.t := snd (m w).
Definition eval {A : Type} (m : M A) (w : World.t) : A := fst (m w).

(** ** Host primitives *)

(** [Date.now()] and [new Date()] both read the clock. *)
Definition Date_now : M Z :=
fun w =>
  (World.clock w (World.reads w),
   World.mk (World.storage w) (World.clock w) (S (World.reads w))
     (World.entropy w) (World.draws w) (World.remote w) (World.fetches w)
     (World.trace w)).

(** [Math.random().toString(36).substr(2, 9)] *)
Definition Math_random_base36 : M string :=
fun w =>
  (World.entropy w (World.draws w),
   World.mk (World.storage w) (World.clock w) (World.reads w)
     (World.entropy w) (S (World.draws w)) (World.remote w) (World.fetches w)
     (World.trace w)).

(** [await fetch(url, ...)] and the reading of the response. *)
Definition fetch (url : string) : M FetchResult :=
fun w =>
  (World.remote w (World.fetches w),
   World.mk (World.storage w) (World.clock w) (World.reads w)
     (World.entropy w) (World.draws w) (World.remote w) (S (World.fetches w))
     (World.trace w ++ [Fetch url])).

Definition getStorage : M LocalStorage.t :=
fun w => (World.storage w, w).

(** A write to [localStorage]: the store is replaced and the write is
  recorded in the trace. *)
Definition putStorage (e : Effect) (ls : LocalStorage.t) : M unit :=
fun w =>
  (tt,
   World.mk ls (World.clock w) (World.reads w) (World.entropy w)
     (World.draws w) (World.remote w) (World.fetches w)
     (World.trace w ++ [e])).

Definition setItem_fallback_users (v : list User.t) : M unit :=
ls <- getStorage ;;
putStorage (SetItem "fallback_users")
  (LocalStorage.mk (Some v) (LocalStorage.auth_token ls)
     (LocalStorage.user_data ls) (LocalStorage.user_activities ls)
     (LocalStorage.user_purchases ls)).

Definition setItem_auth_token (v : string) : M unit :=
ls <- getStorage ;;
putStorage (SetItem "auth_token")
  (LocalStorage.mk (LocalStorage.fallback_users ls) (Some v)
     (LocalStorage.user_data ls) (LocalStorage.user_activities ls)
     (LocalStorage.user_purchases ls)).

Definition setItem_user_data (v : User.t) : M unit :=
ls <- getStorage ;;
putStorage (SetItem "user_data")
  (LocalStorage.mk (LocalStorage.fallback_users ls)
     (LocalStorage.auth_token ls) (Some v)
     (LocalStorage.user_activities ls) (LocalStorage.user_purchases ls)).

Definition setItem_user_activities (v : list ActivityLog.t) : M unit :=
ls <- getStorage ;;
putStorage (SetItem "user_activities")
  (LocalStorage.mk (LocalStorage.fallback_users ls)
     (LocalStorage.auth_token ls) (LocalStorage.user_data ls) (Some v)
     (LocalStorage.user_purchases ls)).

Definition setItem_user_purchases (v : list Purchase.t) : M unit :=
ls <- getStorage ;;
putStorage (SetItem "user_purchases")
  (LocalStorage.mk (LocalStorage.fallback_users ls)
     (LocalStorage.auth_token ls) (LocalStorage.user_data ls)
     (LocalStorage.user_activities ls) (Some v)).

Definition removeItem_auth_token : M unit :=
ls <- getStorage ;;
putStorage (RemoveItem "auth_token")
  (LocalStorage.mk (LocalStorage.fallback_users ls) None
     (LocalStorage.user_data ls) (LocalStorage.user_activities ls)
     (LocalStorage.user_purchases ls)).

Definition removeItem_user_data : M unit :=
ls <- getStorage ;;
putStorage (RemoveItem "user_data")
  (LocalStorage.mk (LocalStorage.fallback_users ls)
     (LocalStorage.auth_token ls) None
     (LocalStorage.user_activities ls) (LocalStorage.user_purchases ls)).

(** ** [class ApiClient] *)

Module ApiClient.

Definition API_BASE_URL : string := "http://129.151.182.215:3000".

(** [const USE_FALLBACK = true]: [signup], [signin], [logout] and
    [logActivity] take their fallback branch, the only one embedded for
    them; [savePurchase] is embedded for both values of the flag. *)
Definition USE_FALLBACK : bool := true.

(** *** Readers of the store *)

Definition users_of (ls : LocalStorage.t) : list User.t :=
  Js.parse_or_empty (LocalStorage.fallback_users ls).

Definition activities_of (ls : LocalStorage.t) : list ActivityLog.t :=
  Js.parse_or_empty (LocalStorage.user_activities ls).

Definition purchases_of (ls : LocalStorage.t) : list Purchase.t :=
  Js.parse_or_empty (LocalStorage.user_purchases ls).

Definition getAuthToken (ls : LocalStorage.t) : option string :=
  LocalStorage.auth_token ls.

Definition getCurrentUser (ls : LocalStorage.t) : option User.t :=
  LocalStorage.user_data ls.

(** [!!this.getAuthToken()]: the empty string is falsy. *)
Definition isAuthenticated (ls : LocalStorage.t) : bool :=
  match getAuthToken ls with
  | Some t => negb (String.eqb t EmptyString)
  | None => false
  end.

Definition getUserById (ls : LocalStorage.t) (userId : Z) : option User.t :=
  match find (fun u => User.id u =? userId) (users_of ls) with
  | None => None
  | Some userData => Some (User.without_password userData)
  end.

(** *** Writers *)

Definition token_of (id : Z) : string :=
  ("fallback_token_" ++ Js.string_of_Z id)%string.

Definition fallbackSignup (email password : string)
    (phone name : option string) : M AuthResponse.t :=
  ls <- getStorage ;;
  let users := users_of ls in
  match find (fun u => String.eqb (User.email u) email) users with
  | Some _ =>
      ret (AuthResponse.mk false "User already exists with this email."
             None None)
  | None =>
      id <- Date_now ;;
      created_at <- Date_now ;;
      let newUser := User.mk id email phone name created_at None in
      let userData := User.with_password newUser password in
      setItem_fallback_users (users ++ [userData]) ;;
      let token := token_of (User.id newUser) in
      setItem_auth_token token ;;
      setItem_user_data newUser ;;
      ret (AuthResponse.mk true "Account created successfully!"
             (Some newUser) (Some token))
  end.

Definition password_is (u : User.t) (password : string) : bool :=
  match User.password u with
  | Some p => String.eqb p password
  | None => false
  end.

Definition fallbackSignin (email password : string) : M AuthResponse.t :=
  ls <- getStorage ;;
  let users := users_of ls in
  match find (fun u => String.eqb (User.email u) email
                       && password_is u password) users with
  | None =>
      ret (AuthResponse.mk false "Invalid email or password." None None)
  | Some user =>
      let userWithoutPassword := User.without_password user in
      let token := token_of (User.id user) in
      setItem_auth_token token ;;
      setItem_user_data userWithoutPassword ;;
      ret (AuthResponse.mk true "Signed in successfully!"
             (Some userWithoutPassword) (Some token))
  end.

Definition logActivity (eventType : EventType)
    (details : option Details.t) : M unit :=
  ls <- getStorage ;;
  match getCurrentUser ls with
  | None => ret tt
  | Some user =>
      now <- Date_now ;;
      rnd <- Math_random_base36 ;;
      timestamp <- Date_now ;;
      let activity :=
        ActivityLog.mk (Js.string_of_Z now ++ "_" ++ rnd)%string
          (User.id user) eventType timestamp details in
      ls' <- getStorage ;;
      setItem_user_activities (activities_of ls' ++ [activity])
  end.

Definition signup (email password : string)
    (phone name : option string) : M AuthResponse.t :=
  result <- fallbackSignup email password phone name ;;
  (if AuthResponse.success result
   then logActivity signup_event
          (Some (Details.mk None None None (Some email) phone name))
   else ret tt) ;;
  ret result.

Definition signin (email password : string) : M AuthResponse.t :=
  result <- fallbackSignin email password ;;
  (if AuthResponse.success result
   then logActivity signin_event
          (Some (Details.mk None None None (Some email) None None))
   else ret tt) ;;
  ret result.

Definition logout : M unit :=
  removeItem_auth_token ;;
  removeItem_user_data.

Definition logSongSelection (songTitle category : string) : M unit :=
  logActivity song_selection
    (Some (Details.mk (Some songTitle) (Some category) None None None None)).

Definition logRecordingComplete (songTitle category : string) : M unit :=
  logActivity recording_complete
    (Some (Details.mk (Some songTitle) (Some category) None None None None)).

Definition logPayment (songTitle category : string) (amount : Z) : M unit :=
  logActivity payment
    (Some (Details.mk (Some songTitle) (Some category) (Some amount)
             None None None)).

(** [savePurchase], for either value of the module flag. *)
Definition savePurchase_with (use_fallback : bool)
    (purchaseData : PurchaseData.t) : M SaveResult.t :=
  ls <- getStorage ;;
  let purchases := purchases_of ls in
  id <- Date_now ;;
  purchased_at <- Date_now ;;
  let purchaseWithId := Purchase.mk purchaseData id purchased_at in
  setItem_user_purchases (purchases ++ [purchaseWithId]) ;;
  if use_fallback then
    ret (SaveResult.mk true "Purchase saved successfully!")
  else
    response <- fetch (API_BASE_URL ++ "/api/purchases")%string ;;
    match response with
    | Response true (Some body) => ret body
    | _ => ret (SaveResult.mk true "Purchase saved locally (API unavailable).")
    end.

Definition savePurchase : PurchaseData.t -> M SaveResult.t :=
  savePurchase_with USE_FALLBACK.

(** *** Reports *)

Definition is_event (e : EventType) (a : ActivityLog.t) : bool :=
  EventType_eqb (ActivityLog.eventType a) e.

(** [(a, b) => new Date(b.timestamp).getTime() - new Date(a.timestamp).getTime()] *)
Definition by_recency (a b : ActivityLog.t) : Z :=
  ActivityLog.timestamp b - ActivityLog.timestamp a.

Definition getUserReport (ls : LocalStorage.t) (userId : option Z)
  : option UserReport.t :=
  let user :=
    match userId with
    | Some i => if Js.truthy_number userId then getUserById ls i
                else getCurrentUser ls
    | None => getCurrentUser ls
    end in
  match user with
  | None => None
  | Some user =>
      let activities :=
        Js.sort by_recency
          (filter (fun activity => ActivityLog.userId activity =? User.id user)
             (activities_of ls)) in
      let signIns := List.length (filter (is_event signin_event) activities) in
      let songSelections := List.length (filter (is_event song_selection) activities) in
      let recordings := List.length (filter (is_event recording_complete) activities) in
      let payments := List.length (filter (is_event payment) activities) in
      Some (UserReport.mk (User.id user) (User.email user) (User.name user)
              signIns songSelections recordings payments
              (match activities with
               | first :: _ => ActivityLog.timestamp first
               | [] => User.created_at user
               end)
              activities)
  end.

Definition getAllUserReports (ls : LocalStorage.t) : list UserReport.t :=
  Js.filter_Boolean
    (map (fun user => getUserReport ls (Some (User.id user))) (users_of ls)).

(** [(a, b) => b.totalActivity - a.totalActivity] *)
Definition by_totalActivity (a b : RankedReport.t) : Z :=
  Z.of_nat (RankedReport.totalActivity b)
  - Z.of_nat (RankedReport.totalActivity a).

(** [getTopUsers(limit = 10)]; [None] is the call without argument. *)
Definition getTopUsers (ls : LocalStorage.t) (limit : option Z)
  : list RankedReport.t :=
  let limit := match limit with Some k => k | None => 10 end in
  let reports := getAllUserReports ls in
  Js.slice0
    (Js.sort by_totalActivity
       (map (fun report =>
               RankedReport.mk report
                 (UserReport.totalSignIns report
                  + UserReport.songsSelected report
                  + UserReport.recordingsCompleted report
                  + UserReport.paymentsCompleted report)%nat)
          reports))
    limit.

Definition headers : list string :=
  [ "User ID"; "Email"; "Artist Name"; "Sign-ins"; "Songs Selected";
    "Recordings"; "Payments"; "Last Activity" ].

Definition quoted (s : string) : string :=
  (Js.dquote ++ s ++ Js.dquote)%string.

(** The cells of one row, before [join(",")].  [toLocaleString] is the
    host's rendering of a date in the user's locale and time zone. *)
Definition row_cells (toLocaleString : Timestamp -> string)
    (report : UserReport.t) : list string :=
  [ Js.string_of_Z (UserReport.userId report);
    quoted (UserReport.email report);
    quoted (Js.or_empty (UserReport.artistName report));
    Js.string_of_nat (UserReport.totalSignIns report);
    Js.string_of_nat (UserReport.songsSelected report);
    Js.string_of_nat (UserReport.recordingsCompleted report);
    Js.string_of_nat (UserReport.paymentsCompleted report);
    quoted (toLocaleString (UserReport.lastActivity report)) ].

Definition exportUserData (toLocaleString : Timestamp -> string)
    (ls : LocalStorage.t) : string :=
  let reports := getAllUserReports ls in
  let csvContent :=
    Js.join Js.lf
      (Js.join "," headers
       :: map (fun report => Js.join "," (row_cells toLocaleString report))
            reports) in
  csvContent.

End ApiClient.

(** ** The recording session of [KaraokeRecording] *)

Module KaraokeRecording.

(** A [Blob]: its size in bytes and its media type. *)
Record Blob := mkBlob {
  size : Z;
  type : string
}.

(** The [MediaRecorder] held by [mediaRecorderRef]: its negotiated
    [mimeType], whether it is capturing, and whether a [stop] event is
    queued for [onstop]. *)
Record MediaRecorder := mkRecorder {
  mimeType : string;
  capturing : bool;
  stop_queued : bool
}.

(** The reference video element held by [karaokeVideoRef]. *)
Record Video := mkVideo {
  currentTime : Z;
  paused : bool
}.

(** The state variables ([useState]) and the references ([useRef]) of
    the component, and the [alert]s shown so far.  A [MediaStream] is
    the list of its tracks, [true] for a track whose [readyState] is
    [live]. *)
Record Session := mkSession {
  isRecording : bool;
  recordedBlob : option Blob;
  recordingTime : Z;
  hasPermission : bool;
  karaokeVideoPlaying : bool;
  videoLoadError : bool;
  karaokeVideoRef : option Video;
  mediaRecorderRef : option MediaRecorder;
  streamRef : option (list bool);
  recordingTimerRef : bool;
  recordedChunksRef : list Blob;
  alerts : list string
}.

(** What the host answers when a recorder is created and started. *)
Record Host := mkHost {
  isTypeSupported : string -> bool;
  defaultMimeType : string;
  constructor_throws : bool;
  start_throws : bool
}.

Definition initial : Session :=
  mkSession false None 0 false false false None None None false [] [].

Definition setIsRecording (v : bool) (s : Session) : Session :=
  mkSession v (recordedBlob s) (recordingTime s) (hasPermission s)
    (karaokeVideoPlaying s) (videoLoadError s) (karaokeVideoRef s)
    (mediaRecorderRef s) (streamRef s) (recordingTimerRef s)
    (recordedChunksRef s) (alerts s).

Definition setRecordedBlob (v : option Blob) (s : Session) : Session :=
  mkSession (isRecording s) v (recordingTime s) (hasPermission s)
    (karaokeVideoPlaying s) (videoLoadError s) (karaokeVideoRef s)
    (mediaRecorderRef s) (streamRef s) (recordingTimerRef s)
    (recordedChunksRef s) (alerts s).

Definition setRecordingTime (v : Z) (s : Session) : Session :=
  mkSession (isRecording s) (recordedBlob s) v (hasPermission s)
    (karaokeVideoPlaying s) (videoLoadError s) (karaokeVideoRef s)
    (mediaRecorderRef s) (streamRef s) (recordingTimerRef s)
    (recordedChunksRef s) (alerts s).

Definition setKaraokeVideoPlaying (v : bool) (s : Session) : Session :=
  mkSession (isRecording s) (recordedBlob s) (recordingTime s)
    (hasPermission s) v (videoLoadError s) (karaokeVideoRef s)
    (mediaRecorderRef s) (streamRef s) (recordingTimerRef s)
    (recordedChunksRef s) (alerts s).

Definition set_karaokeVideo (v : option Video) (s : Session) : Session :=
  mkSession (isRecording s) (recordedBlob s) (recordingTime s)
    (hasPermission s) (karaokeVideoPlaying s) (videoLoadError s) v
    (mediaRecorderRef s) (streamRef s) (recordingTimerRef s)
    (recordedChunksRef s) (alerts s).

Definition set_mediaRecorder (v : option MediaRecorder) (s : Session)
  : Session :=
  mkSession (isRecording s) (recordedBlob s) (recordingTime s)
    (hasPermission s) (karaokeVideoPlaying s) (videoLoadError s)
    (karaokeVideoRef s) v (streamRef s) (recordingTimerRef s)
    (recordedChunksRef s) (alerts s).

Definition set_recordingTimer (v : bool) (s : Session) : Session :=
  mkSession (isRecording s) (recordedBlob s) (recordingTime s)
    (hasPermission s) (karaokeVideoPlaying s) (videoLoadError s)
    (karaokeVideoRef s) (mediaRecorderRef s) (streamRef s) v
    (recordedChunksRef s) (alerts s).

Definition set_recordedChunks (v : list Blob) (s : Session) : Session :=
  mkSession (isRecording s) (recordedBlob s) (recordingTime s)
    (hasPermission s) (karaokeVideoPlaying s) (videoLoadError s)
    (karaokeVideoRef s) (mediaRecorderRef s) (streamRef s)
    (recordingTimerRef s) v (alerts s).

Definition alert (msg : string) (s : Session) : Session :=
  mkSession (isRecording s) (recordedBlob s) (recordingTime s)
    (hasPermission s) (karaokeVideoPlaying s) (videoLoadError s)
    (karaokeVideoRef s) (mediaRecorderRef s) (streamRef s)
    (recordingTimerRef s) (recordedChunksRef s) (alerts s ++ [msg]).

(** [karaokeVideoRef.current.pause(); setKaraokeVideoPlaying(false)],
    under [if (karaokeVideoRef.current)]. *)
Definition pause_video (s : Session) : Session :=
  match karaokeVideoRef s with
  | Some v =>
      setKaraokeVideoPlaying false
        (set_karaokeVideo (Some (mkVideo (currentTime v) true)) s)
  | None => s
  end.

Definition supportedTypes : list string :=
  [ "video/webm;codecs=vp8,opus"; "video/webm;codecs=vp9,opus";
    "video/webm"; "video/mp4" ].

(** The [for] loop of [startRecording]: the first supported type, or
    the empty string. *)
Definition pick_mimeType (h : Host) : string :=
  match find (isTypeSupported h) supportedTypes with
  | Some t => t
  | None => EmptyString
  end.

Definition startRecording (h : Host) (s : Session) : Session :=
  match streamRef s with
  | None => alert "Camera and microphone permissions are required" s
  | Some tracks =>
      if negb (hasPermission s) then
        alert "Camera and microphone permissions are required" s
      else if (List.length (filter (fun live => live) tracks) =? 0)%nat then
        alert "Camera and microphone are not active. Please refresh and try again." s
      else
        let failed :=
          alert "Recording failed. Please check your camera and microphone permissions and try again." in
        let s := set_recordedChunks [] s in
        if constructor_throws h then failed s
        else
          let mimeType := pick_mimeType h in
          let recorderType :=
            if String.eqb mimeType EmptyString then defaultMimeType h
            else mimeType in
          let s := set_mediaRecorder
                     (Some (mkRecorder recorderType false false)) s in
          if start_throws h then failed s
          else
            let s := set_mediaRecorder
                       (Some (mkRecorder recorderType true false)) s in
            let s := setIsRecording true s in
            let s := setRecordingTime 0 s in
            let s :=
              match karaokeVideoRef s with
              | Some _ =>
                  if negb (videoLoadError s) then
                    setKaraokeVideoPlaying true
                      (set_karaokeVideo (Some (mkVideo 0 false)) s)
                  else s
              | None => s
              end in
            set_recordingTimer true s
  end.

(** One firing of the interval: [setRecordingTime((prev) => prev + 1)]. *)
Definition tick (s : Session) : Session :=
  if recordingTimerRef s then setRecordingTime (recordingTime s + 1) s
  else s.

(** [mediaRecorder.ondataavailable] *)
Definition ondataavailable (data : Blob) (s : Session) : Session :=
  if 0 <? size data
  then set_recordedChunks (recordedChunksRef s ++ [data]) s
  else s.

(** [new Blob(chunks, { type })] *)
Definition new_Blob (chunks : list Blob) (type : string) : Blob :=
  mkBlob (fold_right (fun c acc => size c + acc) 0 chunks) type.

(** [mediaRecorder.onstop], run when the queued [stop] event is
    delivered. *)
Definition onstop (s : Session) : Session :=
  match mediaRecorderRef s with
  | Some r =>
      if stop_queued r then
        let finalMimeType :=
          if String.eqb (mimeType r) EmptyString then "video/webm"
          else mimeType r in
        let blob := new_Blob (recordedChunksRef s) finalMimeType in
        let s := set_mediaRecorder
                   (Some (mkRecorder (mimeType r) (capturing r) false)) s in
        if 0 <? size blob then setRecordedBlob (Some blob) s
        else alert "Recording failed - no data captured. Please ensure your camera and microphone are working and try again." s
      else s
  | None => s
  end.

Definition stopRecording (s : Session) : Session :=
  match mediaRecorderRef s with
  | Some r =>
      if isRecording s then
        if recordingTime s <? 1 then
          alert "Please record for at least 1 second before stopping." s
        else
          let s := set_mediaRecorder
                     (Some (mkRecorder (mimeType r) false true)) s in
          let s := setIsRecording false s in
          let s := pause_video s in
          if recordingTimerRef s then set_recordingTimer false s else s
      else s
  | None => s
  end.

Definition restartRecording (s : Session) : Session :=
  let s := stopRecording s in
  let s := setRecordedBlob None s in
  let s := setRecordingTime 0 s in
  match karaokeVideoRef s with
  | Some _ =>
      setKaraokeVideoPlaying false
        (set_karaokeVideo (Some (mkVideo 0 true)) s)
  | None => s
  end.

(** The states of the session, read off the component's state
    variables as the controls of the screen do. *)
Inductive State :=
| AwaitingPermission
| Ready
| Recording
| Stopped (artifact : Blob).

Definition state_of (s : Session) : State :=
  if negb (hasPermission s) then AwaitingPermission
  else if isRecording s then Recording
  else match recordedBlob s with
       | Some b => Stopped b
       | None => Ready
       end.

End KaraokeRecording.

(** ** Vocabulary of the properties *)

Module Spec.
Import ApiClient.

(** *** Orders *)

(** The comparators of the client, [(a, b) => b.key - a.key], and the
    order they sort into. *)
Definition by_key {A : Type} (key : A -> Z) (a b : A) : Z := key b - key a.

Definition descending {A : Type} (key : A -> Z) (a b : A) : Prop :=
  key a >= key b.

(** *** Accounts *)

(** The two structured failures of the account operations. *)
Definition duplicate_account : AuthResponse.t :=
  AuthResponse.mk false "User already exists with this email." None None.

Definition invalid_credentials : AuthResponse.t :=
  AuthResponse.mk false "Invalid email or password." None None.

(** The predicates [fallbackSignup] and [fallbackSignin] search with. *)
Definition has_email (email : string) (u : User.t) : bool :=
  String.eqb (User.email u) email.

Definition has_credentials (email password : string) (u : User.t) : bool :=
  String.eqb (User.email u) email && password_is u password.

(** *** Activity log and reports *)

(** Log a sequence of events with [logActivity], in order. *)
Fixpoint logActivities (evs : list (EventType * option Details.t)) : M unit :=
  match evs with
  | [] => ret tt
  | (e, d) :: rest => logActivity e d ;; logActivities rest
  end.

(** The number of [signup] events in a sequence of events to log. *)
Definition signups (evs : list (EventType * option Details.t)) : nat :=
  List.length (filter (fun ev => EventType_eqb (fst ev) signup_event) evs).

(** The account a call [getUserReport(userId)] reports on. *)
Definition resolved (ls : LocalStorage.t) (userId : option Z) : option User.t :=
  if Js.truthy_number userId
  then match userId with Some i => getUserById ls i | None => None end
  else getCurrentUser ls.

Definition owned_by (i : Z) (a : ActivityLog.t) : bool :=
  ActivityLog.userId a =? i.

Definition at_time (t : Timestamp) (a : ActivityLog.t) : bool :=
  ActivityLog.timestamp a =? t.

Definition newer (a b : ActivityLog.t) : Prop :=
  ActivityLog.timestamp a > ActivityLog.timestamp b.

Definition not_older (a b : ActivityLog.t) : Prop :=
  ActivityLog.timestamp a >= ActivityLog.timestamp b.

(** The sum of the four tallies of a report. *)
Definition total_of (report : UserReport.t) : nat :=
  (UserReport.totalSignIns report + UserReport.songsSelected report
   + UserReport.recordingsCompleted report
   + UserReport.paymentsCompleted report)%nat.

(** The report property in the specification's words: N entries, all
    owned by the account, the tallies summing to N, strictly descending
    timestamps. *)
Definition report_as_stated (i : Z) (N : nat) (r : UserReport.t) : Prop :=
  List.length (UserReport.activities r) = N
  /\ Forall (fun a => ActivityLog.userId a = i) (UserReport.activities r)
  /\ total_of r = N
  /\ StronglySorted newer (UserReport.activities r).

(** *** Ranking *)

(** [getTopUsers] pairs each report with its total. *)
Definition ranked (report : UserReport.t) : RankedReport.t :=
  RankedReport.mk report (total_of report).

Definition ranks_not_below (a b : RankedReport.t) : Prop :=
  (RankedReport.totalActivity b <= RankedReport.totalActivity a)%nat.

Definition with_total (t : nat) (r : RankedReport.t) : bool :=
  (RankedReport.totalActivity r =? t)%nat.

(** *** The exported table *)

(** The text of the header row and of one data row, written out cell by
    cell: every quoted cell is the value between two double quotes, with
    no character escaped. *)
Definition header_row : string :=
  "User ID,Email,Artist Name,Sign-ins,Songs Selected,Recordings,Payments,Last Activity".

Definition data_row (toLocaleString : Timestamp -> string)
    (r : UserReport.t) : string :=
  (Js.string_of_Z (UserReport.userId r)
   ++ "," ++ Js.dquote ++ UserReport.email r ++ Js.dquote
   ++ "," ++ Js.dquote ++ Js.or_empty (UserReport.artistName r) ++ Js.dquote
   ++ "," ++ Js.string_of_nat (UserReport.totalSignIns r)
   ++ "," ++ Js.string_of_nat (UserReport.songsSelected r)
   ++ "," ++ Js.string_of_nat (UserReport.recordingsCompleted r)
   ++ "," ++ Js.string_of_nat (UserReport.paymentsCompleted r)
   ++ "," ++ Js.dquote ++ toLocaleString (UserReport.lastActivity r)
   ++ Js.dquote)%string.

Definition contains (c : ascii) (s : string) : bool :=
  existsb (Ascii.eqb c) (list_ascii_of_string s).

(** A string free of line feeds. *)
Definition one_line (s : string) : Prop := contains Js.LF s = false.

(** *** Purchases *)

(** What counts as a failed remote call in [savePurchase]: a rejected
    [fetch], a response that is not [ok], or a body that does not parse. *)
Definition remote_failed (r : FetchResult) : bool :=
  match r with
  | Response true (Some _) => false
  | _ => true
  end.

(** The results of [savePurchase] without the remote service, and with
    the remote service failing. *)
Definition saved : SaveResult.t :=
  SaveResult.mk true "Purchase saved successfully!".

Definition saved_locally : SaveResult.t :=
  SaveResult.mk true "Purchase saved locally (API unavailable).".
End Spec.

(** ** Sample worlds and sessions *)

Module Sample.
Import ApiClient.

(** An empty store; the clock advances one millisecond per reading. *)
Definition fresh : World.t :=
  World.mk LocalStorage.empty (fun n => 1700000000000 + Z.of_nat n) 0
    (fun _ => "k3j9x0q1z") 0 (fun _ => Rejected) 0 [].

(** An empty store under a clock that stands still: every reading falls
    in the same millisecond. *)
Definition frozen : World.t :=
  World.mk LocalStorage.empty (fun _ => 1700000000000) 0
    (fun _ => "k3j9x0q1z") 0 (fun _ => Rejected) 0 [].

Definition with_account (w : World.t) : World.t :=
  exec (signup "a@x.com" "p1" None None) w.

(** The account exists and is signed in, and nothing was logged yet. *)
Definition with_silent_account (w : World.t) : World.t :=
  exec (fallbackSignup "a@x.com" "p1" None None) w.

Definition silent_account : User.t :=
  User.mk 1700000000000 "a@x.com" None None 1700000000001 None.

(** The same account and its report of two events under the clock that
    stands still. *)
Definition frozen_account : User.t :=
  User.mk 1700000000000 "a@x.com" None None 1700000000000 None.

Definition frozen_report : UserReport.t :=
  UserReport.mk 1700000000000 "a@x.com" None 1 0 0 0 1700000000000
    [ ActivityLog.mk "1700000000000_k3j9x0q1z" 1700000000000 signup_event
        1700000000000
        (Some (Details.mk None None None (Some "a@x.com") None None));
      ActivityLog.mk "1700000000000_k3j9x0q1z" 1700000000000 signin_event
        1700000000000
        (Some (Details.mk None None None (Some "a@x.com") None None)) ].

(** A display name that holds a line feed, and the store after an
    account signed up under it. *)
Definition two_line_name : string :=
  ("Ann" ++ Js.lf ++ "Lee")%string.

Definition with_two_line_name : LocalStorage.t :=
  World.storage
    (exec (signup "a@x.com" "p1" None (Some two_line_name)) fresh).

(** The [en-US] rendering, in UTC, of the instants of the sample stores,
    which all fall within one second. *)
Definition en_US (t : Timestamp) : string := "11/14/2023, 10:13:20 PM".

(** Two accounts: the first signs up and picks a song, then the second
    signs up. *)
Definition two_accounts : LocalStorage.t :=
  World.storage
    (exec (signup "a@x.com" "p1" None None ;;
           logSongSelection "Halo" "adults" ;;
           signup "b@x.com" "p2" None (Some "Bea"))
       fresh).

Definition a_purchase : PurchaseData.t :=
  PurchaseData.mk 1700000000000 "Halo" "Beyonce" "adults"
    "/videos/halo.mp4" 5.

(** A session that was granted the camera and the microphone, on a host
    that records [video/webm], and the same session right after
    [startRecording]. *)
Definition host : KaraokeRecording.Host :=
  KaraokeRecording.mkHost (fun t => String.eqb t "video/webm") "video/webm"
    false false.

Definition granted : KaraokeRecording.Session :=
  KaraokeRecording.mkSession false None 0 true false false
    (Some (KaraokeRecording.mkVideo 0 true)) None (Some [true; true])
    false [] [].

Definition just_started : KaraokeRecording.Session :=
  KaraokeRecording.startRecording host granted.

(** Two seconds into the recording, two chunks captured. *)
Definition two_seconds_in : KaraokeRecording.Session :=
  KaraokeRecording.ondataavailable (KaraokeRecording.mkBlob 2048 "video/webm")
    (KaraokeRecording.tick
       (KaraokeRecording.ondataavailable
          (KaraokeRecording.mkBlob 4096 "video/webm")
          (KaraokeRecording.tick just_started))).

Definition signup_then_signin : list (EventType * option Details.t) :=
  [ (signup_event,
     Some (Details.mk None None None (Some "a@x.com") None None));
    (signin_event,
     Some (Details.mk None None None (Some "a@x.com") None None)) ].
End Sample.

(** ** Sequences of calls to the client *)

Module Client.
Import ApiClient.

(** The calls of [ApiClient] that write to the store. *)
Inductive Op :=
| Signup (email password : string) (phone name : option string)
| Signin (email password : string)
| Logout
| LogSongSelection (songTitle category : string)
| LogRecordingComplete (songTitle category : string)
| LogPayment (songTitle category : string) (amount : Z)
| SavePurchase (purchaseData : PurchaseData.t).

Definition call (op : Op) : M unit :=
  match op with
  | Signup email password phone name =>
      _ <- signup email password phone name ;; ret tt
  | Signin email password => _ <- signin email password ;; ret tt
  | Logout => logout
  | LogSongSelection songTitle category => logSongSelection songTitle category
  | LogRecordingComplete songTitle category =>
      logRecordingComplete songTitle category
  | LogPayment songTitle category amount =>
      logPayment songTitle category amount
  | SavePurchase purchaseData => _ <- savePurchase purchaseData ;; ret tt
  end.

Fixpoint run (ops : list Op) : M unit :=
  match ops with
  | [] => ret tt
  | op :: rest => call op ;; run rest
  end.

(** The session token is the one derived from the cached account, or
    both are absent. *)
Definition session_consistent (ls : LocalStorage.t) : Prop :=
  match LocalStorage.auth_token ls, LocalStorage.user_data ls with
  | Some t, Some u => t = token_of (User.id u)
  | None, None => True
  | _, _ => False
  end.

(** The cached account is an account of the store, less its secret. *)
Definition cached_is_account (ls : LocalStorage.t) : Prop :=
  forall u, getCurrentUser ls = Some u ->
    exists account, In account (users_of ls)
                    /\ User.without_password account = u.

(** Every event of the log is owned by an account of the store. *)
Definition owners_are_accounts (ls : LocalStorage.t) : Prop :=
  Forall (fun a => exists account, In account (users_of ls)
                                   /\ User.id account = ActivityLog.userId a)
    (activities_of ls).

Definition well_formed (ls : LocalStorage.t) : Prop :=
  session_consistent ls /\ cached_is_account ls /\ owners_are_accounts ls.

(** The tally a report keeps for a tag; [signup] has none. *)
Definition tally (tag : EventType) (r : UserReport.t) : nat :=
  match tag with
  | signin_event => UserReport.totalSignIns r
  | song_selection => UserReport.songsSelected r
  | recording_complete => UserReport.recordingsCompleted r
  | payment => UserReport.paymentsCompleted r
  | signup_event => 0%nat
  end.

Definition bump (tag e : EventType) : nat :=
  if EventType_eqb e tag then 1%nat else 0%nat.
End Client.

(** ** The rest of the recording screen *)

Module KaraokeScreen.
Import KaraokeRecording.

(** What the recorder and the interval deliver while a recording runs. *)
Inductive Event :=
| Tick
| DataAvailable (data : Blob).

Definition deliver1 (s : Session) (e : Event) : Session :=
  match e with
  | Tick => tick s
  | DataAvailable data => ondataavailable data s
  end.

Definition deliver (evs : list Event) (s : Session) : Session :=
  fold_left deliver1 evs s.

Definition ticks (evs : list Event) : Z :=
  Z.of_nat (List.length
              (filter (fun e => match e with Tick => true | _ => false end) evs)).

(** The chunks [ondataavailable] keeps out of a run of events. *)
Fixpoint kept (evs : list Event) : list Blob :=
  match evs with
  | [] => []
  | Tick :: rest => kept rest
  | DataAvailable data :: rest =>
      if 0 <? size data then data :: kept rest else kept rest
  end.

(** The guards and the host calls of [startRecording] all pass. *)
Definition startable (h : Host) (s : Session) : bool :=
  match streamRef s with
  | Some tracks =>
      hasPermission s && existsb (fun live => live) tracks
      && negb (constructor_throws h) && negb (start_throws h)
  | None => false
  end.

(** The [mimeType] of the recorder [startRecording] creates. *)
Definition negotiated (h : Host) : string :=
  if String.eqb (pick_mimeType h) EmptyString then defaultMimeType h
  else pick_mimeType h.

(** The type [onstop] tags the artifact with. *)
Definition artifact_type (h : Host) : string :=
  if String.eqb (negotiated h) EmptyString then "video/webm"
  else negotiated h.

Definition no_data_alert : string :=
  "Recording failed - no data captured. Please ensure your camera and microphone are working and try again.".

(** [String.prototype.padStart(n, c)] for a one-character filler. *)
Definition padStart (n : nat) (c : ascii) (s : string) : string :=
  (string_of_list_ascii (repeat c (n - String.length s)) ++ s)%string.

(** [formatTime]: [Math.floor(seconds / 60)] and [seconds % 60], each
    padded to two characters. *)
Definition formatTime (seconds : Z) : string :=
  let mins := seconds / 60 in
  let secs := Z.rem seconds 60 in
  (padStart 2 "0" (Js.string_of_Z mins) ++ ":"
   ++ padStart 2 "0" (Js.string_of_Z secs))%string.

(** Reading a rendered time back: the decimal number before the colon,
    times 60, plus the one after it. *)
Definition read_decimal (s : string) : option Z :=
  match NilEmpty.uint_of_string s with
  | Some d => Some (Z.of_uint d)
  | None => None
  end.

Definition read_time (s : string) : option Z :=
  match Js.split_at ":" s with
  | [m; c] =>
      match read_decimal m, read_decimal c with
      | Some mins, Some secs => Some (mins * 60 + secs)
      | _, _ => None
      end
  | _ => None
  end.
End KaraokeScreen.

(** ** The song previews of [SongSelection] *)

Module SongSelection.

Record Song := mkSong {
  id : string;
  title : string;
  artist : string;
  audioUrl : string;
  videoUrl : string
}.

(** An [HTMLAudioElement], as far as the component drives it. *)
Record Audio := mkAudio {
  paused : bool;
  currentTime : Z
}.

(** The state variables of the component and [audioRefs], the object
    that maps a song id to its audio element.  A [Set] of ids is the list
    of its members in insertion order. *)
Record State := mkState {
  currentlyPlaying : option string;
  selectedSong : option Song;
  audioLoadErrors : list string;
  audioLoading : list string;
  audioRefs : string -> option Audio
}.

Definition has (x : string) (set : list string) : bool :=
  existsb (String.eqb x) set.

(** [new Set([...prev, x])] *)
Definition add (x : string) (set : list string) : list string :=
  if has x set then set else set ++ [x].

Definition put (k : string) (a : Audio) (refs : string -> option Audio)
  : string -> option Audio :=
  fun k' => if String.eqb k' k then Some a else refs k'.

Definition setCurrentlyPlaying (v : option string) (s : State) : State :=
  mkState v (selectedSong s) (audioLoadErrors s) (audioLoading s) (audioRefs s).

Definition setSelectedSong (v : option Song) (s : State) : State :=
  mkState (currentlyPlaying s) v (audioLoadErrors s) (audioLoading s)
    (audioRefs s).

Definition setAudioLoadErrors (v : list string) (s : State) : State :=
  mkState (currentlyPlaying s) (selectedSong s) v (audioLoading s) (audioRefs s).

Definition set_audio (k : string) (a : Audio) (s : State) : State :=
  mkState (currentlyPlaying s) (selectedSong s) (audioLoadErrors s)
    (audioLoading s) (put k a (audioRefs s)).

(** The mount effect, for one song: an element is created, paused at 0,
    unless the song has one. *)
Definition mount1 (s : State) (song : Song) : State :=
  match audioRefs s (id song) with
  | Some _ => s
  | None => set_audio (id song) (mkAudio true 0) s
  end.

Definition mount (songs : list Song) (s : State) : State :=
  fold_left mount1 songs s.

Definition initial : State :=
  mkState None None [] [] (fun _ => None).

(** A string-or-null in a condition: [null] and the empty string are
    falsy. *)
Definition truthy (x : option string) : bool :=
  match x with
  | Some v => negb (String.eqb v EmptyString)
  | None => false
  end.

(** [handlePlay]; [play_ok] tells whether the promise of [audio.play()]
    fulfils.  Where the element of the song that is marked playing is
    missing, the assignment to its [currentTime] throws and the handler
    ends there. *)
Definition handlePlay (play_ok : bool) (songId : string) (s : State) : State :=
  let stopped :=
    match currentlyPlaying s with
    | Some current =>
        if truthy (currentlyPlaying s)
           && negb (String.eqb current songId) then
          match audioRefs s current with
          | Some _ => Some (set_audio current (mkAudio true 0) s)
          | None => None
          end
        else Some s
    | None => Some s
    end in
  match stopped with
  | None => s
  | Some s =>
      match audioRefs s songId with
      | Some audio =>
          if negb (has songId (audioLoadErrors s)) then
            if play_ok then
              setCurrentlyPlaying (Some songId)
                (set_audio songId (mkAudio false (currentTime audio)) s)
            else setAudioLoadErrors (add songId (audioLoadErrors s)) s
          else s
      | None => s
      end
  end.

Definition handlePause (songId : string) (s : State) : State :=
  match audioRefs s songId with
  | Some audio =>
      setCurrentlyPlaying None
        (set_audio songId (mkAudio true (currentTime audio)) s)
  | None => s
  end.

Definition handleStop (songId : string) (s : State) : State :=
  match audioRefs s songId with
  | Some audio =>
      setCurrentlyPlaying None (set_audio songId (mkAudio true 0) s)
  | None => s
  end.

Definition handleSelectSong (song : Song) (s : State) : State :=
  let s :=
    match currentlyPlaying s with
    | Some current => if truthy (currentlyPlaying s) then handleStop current s
                      else s
    | None => s
    end in
  setSelectedSong (Some song) s.

(** [handleProceed]: the song handed to [onNext], if any. *)
Definition handleProceed (s : State) : option Song :=
  selectedSong s.

(** Whether the element of a song is sounding. *)
Definition sounding (s : State) (songId : string) : bool :=
  match audioRefs s songId with
  | Some audio => negb (paused audio)
  | None => false
  end.

(** No element sounds but the one marked as playing. *)
Definition exclusive (s : State) : Prop :=
  forall songId, sounding s songId = true ->
    currentlyPlaying s = Some songId.
End SongSelection.

(** ** Sample sequences of calls *)

Module Scenario.
Import Client.

(** A visit: an account signs up, picks a song, tries to sign up again,
    signs out and in, pays; then a second account signs up. *)
Definition visit : list Op :=
  [ Signup "a@x.com" "p1" None None;
    LogSongSelection "Halo" "adults";
    Signup "a@x.com" "other" None None;
    Logout;
    Signin "a@x.com" "p1";
    LogPayment "Halo" "adults" 5;
    SavePurchase Sample.a_purchase;
    Signup "b@x.com" "p2" None (Some "Bea") ].

(** Two seconds of recording: a tick and a chunk, twice. *)
Definition take : list KaraokeScreen.Event :=
  [ KaraokeScreen.Tick;
    KaraokeScreen.DataAvailable (KaraokeRecording.mkBlob 4096 "video/webm");
    KaraokeScreen.Tick;
    KaraokeScreen.DataAvailable (KaraokeRecording.mkBlob 2048 "video/webm") ].

(** Two seconds in which the recorder delivered nothing but an empty
    chunk. *)
Definition silent_take : list KaraokeScreen.Event :=
  [ KaraokeScreen.Tick;
    KaraokeScreen.DataAvailable (KaraokeRecording.mkBlob 0 "video/webm");
    KaraokeScreen.Tick ].

(** Two songs of the catalog, and the screen after mount with the
    preview of the first one playing. *)
Definition one_and_only : SongSelection.Song :=
  SongSelection.mkSong "adele-one-and-only" "One and Only" "Adele"
    "/songs/one-and-only.mp3" "/videos/one-and-only.mp4".

Definition sweet_caroline : SongSelection.Song :=
  SongSelection.mkSong "neil-diamond-sweet-caroline" "Sweet Caroline"
    "Neil Diamond" "/songs/sweet-caroline.mp3" "/videos/sweet-caroline.mp4".

Definition mounted : SongSelection.State :=
  SongSelection.mount [one_and_only; sweet_caroline] SongSelection.initial.

Definition previewing : SongSelection.State :=
  SongSelection.handlePlay true "adele-one-and-only" mounted.

(** Three accounts, the first and the third with one counted event each,
    the second with two. *)
Definition three_accounts : LocalStorage.t :=
  World.storage
    (exec (ApiClient.signup "a@x.com" "p1" None None ;;
           ApiClient.logSongSelection "Halo" "adults" ;;
           ApiClient.signup "b@x.com" "p2" None None ;;
           ApiClient.logSongSelection "Bitch" "adults" ;;
           ApiClient.logPayment "Bitch" "adults" 5 ;;
           ApiClient.signup "c@x.com" "p3" None None ;;
           ApiClient.logSongSelection "Halo" "adults")
       Sample.fresh).
End Scenario.

(** * Properties *)

(** ** [Array.prototype.sort] *)

Module JsFacts.
Section Sorting.
Context {A : Type}.
Variable cmp : A -> A -> Z.

Lemma insert_perm (x : A) (l : list A) :
  Permutation (Js.insert cmp x l) (x :: l).
Proof.
  induction l as [|y l IH]; simpl.
  - apply Permutation_refl.
  - destruct (0 <? cmp x y).
    + rewrite IH. apply perm_swap.
    + apply Permutation_refl.
Qed.

Lemma sort_perm (l : list A) : Permutation (Js.sort cmp l) l.
Proof.
  induction l as [|x l IH]; simpl.
  - constructor.
  - rewrite insert_perm. now constructor.
Qed.

Lemma sort_length (l : list A) : List.length (Js.sort cmp l) = List.length l.
Proof. apply Permutation_length, sort_perm. Qed.

Lemma sort_In (x : A) (l : list A) : In x (Js.sort cmp l) <-> In x l.
Proof.
  split; apply Permutation_in; [|symmetry]; apply sort_perm.
Qed.

Lemma sort_Forall (P : A -> Prop) (l : list A) :
  Forall P l -> Forall P (Js.sort cmp l).
Proof.
  intro H. eapply Permutation_Forall; [symmetry; apply sort_perm | exact H].
Qed.

(** Stability: a class of elements that the comparator never orders
    among themselves keeps its order. *)
Lemma filter_insert (p : A -> bool) (x : A) (l : list A) :
  (forall y, In y l -> 0 < cmp x y -> p x = true -> p y = false) ->
  filter p (Js.insert cmp x l) = filter p (x :: l).
Proof.
  induction l as [|y l IH]; intro H; simpl.
  - reflexivity.
  - destruct (0 <? cmp x y) eqn:E.
    + simpl. rewrite IH by (intros z Hz; apply H; now right).
      simpl. destruct (p x) eqn:Px.
      * rewrite (H y (or_introl eq_refl)); [reflexivity | lia | reflexivity].
      * reflexivity.
    + reflexivity.
Qed.

Lemma filter_sort (p : A -> bool) (l : list A) :
  (forall x y, 0 < cmp x y -> p x = true -> p y = false) ->
  filter p (Js.sort cmp l) = filter p l.
Proof.
  intro H. induction l as [|x l IH]; simpl.
  - reflexivity.
  - rewrite filter_insert by (intros y _; apply H).
    simpl. now rewrite IH.
Qed.
End Sorting.

Section SortingByKey.
Context {A : Type}.
Variable key : A -> Z.

Lemma insert_descending (x : A) (l : list A) :
  StronglySorted (Spec.descending key) l ->
  StronglySorted (Spec.descending key) (Js.insert (Spec.by_key key) x l).
Proof.
  induction 1 as [|y l Hl IH Hy]; simpl.
  - repeat constructor.
  - destruct (0 <? Spec.by_key key x y) eqn:E.
    + constructor; [exact IH|].
      eapply Permutation_Forall; [symmetry; apply insert_perm|].
      constructor; [|exact Hy].
      unfold Spec.descending, Spec.by_key in *. lia.
    + constructor; [now constructor|].
      assert (Hxy : Spec.descending key x y)
        by (unfold Spec.descending, Spec.by_key in *; lia).
      constructor; [exact Hxy|].
      eapply Forall_impl; [|exact Hy].
      unfold Spec.descending in *. intros; lia.
Qed.

Lemma sort_descending (l : list A) :
  StronglySorted (Spec.descending key) (Js.sort (Spec.by_key key) l).
Proof.
  induction l as [|x l IH]; simpl.
  - constructor.
  - now apply insert_descending.
Qed.

Lemma sort_stable (v : Z) (l : list A) :
  filter (fun a => key a =? v) (Js.sort (Spec.by_key key) l)
  = filter (fun a => key a =? v) l.
Proof.
  apply filter_sort. intros x y Hc Hx.
  unfold Spec.by_key in Hc. apply Z.eqb_eq in Hx. apply Z.eqb_neq. lia.
Qed.

(** Two lists in non-increasing order of the key that hold, for every
    value of the key, the same elements in the same order are equal: the
    result of a stable sort does not depend on the algorithm. *)
Lemma sorted_stable_unique (l1 l2 : list A) :
  StronglySorted (Spec.descending key) l1 ->
  StronglySorted (Spec.descending key) l2 ->
  (forall v, filter (fun a => key a =? v) l1
             = filter (fun a => key a =? v) l2) ->
  l1 = l2.
Proof.
  intro H1. revert l2.
  induction H1 as [|a t1 Ht1 IH Ha]; intros l2 H2 Heq.
  - destruct l2 as [|b t2]; [reflexivity|].
    specialize (Heq (key b)). simpl in Heq.
    rewrite Z.eqb_refl in Heq. discriminate.
  - destruct H2 as [|b t2 Ht2 Hb].
    + specialize (Heq (key a)). simpl in Heq.
      rewrite Z.eqb_refl in Heq. discriminate.
    + assert (Hab : key a = key b).
      { pose proof (Heq (key a)) as Ea. pose proof (Heq (key b)) as Eb.
        simpl in Ea, Eb. rewrite Z.eqb_refl in Ea, Eb.
        destruct (Z.eqb_spec (key b) (key a)) as [|Hne]; [congruence|].
        assert (Hin : In a (filter (fun x => key x =? key a) t2))
          by (rewrite <- Ea; now left).
        apply filter_In in Hin. destruct Hin as [Hin _].
        destruct (Z.eqb_spec (key a) (key b)) as [|Hne']; [congruence|].
        assert (Hin' : In b (filter (fun x => key x =? key b) t1))
          by (rewrite Eb; now left).
        apply filter_In in Hin'. destruct Hin' as [Hin' _].
        rewrite Forall_forall in Ha, Hb.
        specialize (Ha b Hin'). specialize (Hb a Hin).
        unfold Spec.descending in Ha, Hb. lia. }
      assert (Hhead : a = b /\ forall v, filter (fun x => key x =? v) t1
                                          = filter (fun x => key x =? v) t2).
      { split.
        - specialize (Heq (key a)). simpl in Heq.
          rewrite <- Hab, Z.eqb_refl in Heq. congruence.
        - intro v. specialize (Heq v). simpl in Heq. rewrite <- Hab in Heq.
          destruct (key a =? v); congruence. }
      destruct Hhead as [-> Htails]. f_equal. now apply IH.
Qed.
End SortingByKey.

Section Slicing.
Context {A : Type}.

Lemma slice0_length (l : list A) (k : Z) :
  0 <= k -> Z.of_nat (List.length (Js.slice0 l k)) <= k.
Proof.
  intro Hk. unfold Js.slice0.
  destruct (k <? 0) eqn:E; [lia|].
  rewrite length_firstn. lia.
Qed.

Lemma slice0_prefix (l : list A) (k : Z) :
  exists rest, l = Js.slice0 l k ++ rest.
Proof.
  unfold Js.slice0. eexists. symmetry. apply firstn_skipn.
Qed.
End Slicing.
End JsFacts.

(** ** Accounts: [signup] and [signin] *)

Module AuthFacts.
Import ApiClient Spec.

Lemma has_credentials_iff (email password : string) (u : User.t) :
  has_credentials email password u = true
  <-> User.email u = email /\ User.password u = Some password.
Proof.
  unfold has_credentials, password_is.
  rewrite andb_true_iff, String.eqb_eq.
  destruct (User.password u) as [p|].
  - rewrite String.eqb_eq. split; intros [H1 H2]; split; congruence.
  - split; intros [_ H]; discriminate.
Qed.

Lemma find_snoc_fresh {A : Type} (p : A -> bool) (l : list A) (x : A) :
  (forall y, In y l -> p y = false) ->
  find p (l ++ [x]) = if p x then Some x else None.
Proof.
  induction l as [|y l IH]; intro H; simpl.
  - reflexivity.
  - rewrite (H y (or_introl eq_refl)). apply IH.
    intros z Hz. apply H. now right.
Qed.

(** What a successful [signup] leaves behind: the account list gets the
    new account, with its secret, at the end. *)
Lemma signup_fresh (w : World.t) (email password : string)
    (phone name : option string) :
  find (has_email email) (users_of (World.storage w)) = None ->
  let newUser :=
    User.mk (World.clock w (World.reads w)) email phone name
      (World.clock w (S (World.reads w))) None in
  let '(r, w1) := signup email password phone name w in
  r = AuthResponse.mk true "Account created successfully!" (Some newUser)
        (Some (token_of (User.id newUser)))
  /\ users_of (World.storage w1)
     = users_of (World.storage w) ++ [User.with_password newUser password]
  /\ getCurrentUser (World.storage w1) = Some newUser.
Proof.
  intro H. unfold signup, fallbackSignup, bind, getStorage.
  fold (has_email email). rewrite H. cbn. auto.
Qed.

Lemma signup_success_fresh (w : World.t) (email password : string)
    (phone name : option string) :
  AuthResponse.success (eval (signup email password phone name) w) = true ->
  find (has_email email) (users_of (World.storage w)) = None.
Proof.
  unfold eval, signup, fallbackSignup, bind, getStorage.
  fold (has_email email).
  destruct (find (has_email email) (users_of (World.storage w))).
  - cbn. discriminate.
  - reflexivity.
Qed.

Lemma signin_result (w : World.t) (email password : string) :
  eval (signin email password) w
  = match find (has_credentials email password) (users_of (World.storage w)) with
    | Some user =>
        AuthResponse.mk true "Signed in successfully!"
          (Some (User.without_password user)) (Some (token_of (User.id user)))
    | None => invalid_credentials
    end.
Proof.
  unfold eval, signin, fallbackSignin, bind, getStorage.
  fold (has_credentials email password).
  destruct (find (has_credentials email password) (users_of (World.storage w)));
    cbn.
  - unfold logActivity, bind, getStorage. cbn. reflexivity.
  - reflexivity.
Qed.

(** C3: [signup] with an email that an account of the store already has
    returns the duplicate-account result and leaves the whole world, the
    store included, as it was. *)
Theorem signup_duplicate_email_rejected
    (w : World.t) (email password : string) (phone name : option string) :
  (exists u, In u (users_of (World.storage w)) /\ User.email u = email) ->
  signup email password phone name w = (duplicate_account, w).
Proof.
  intros [u [Hin Hu]].
  unfold signup, fallbackSignup, bind, getStorage.
  fold (has_email email).
  destruct (find (has_email email) (users_of (World.storage w))) eqn:E.
  - reflexivity.
  - apply (find_none _ _ E) in Hin. unfold has_email in Hin.
    rewrite Hu, String.eqb_refl in Hin. discriminate.
Qed.

Lemma signup_duplicate_email_rejected_witness :
  signup "a@x.com" "p2" None None (Sample.with_account Sample.fresh)
  = (duplicate_account, Sample.with_account Sample.fresh).
Proof.
  apply (signup_duplicate_email_rejected
           (Sample.with_account Sample.fresh) "a@x.com" "p2" None None).
  eexists. split; [vm_compute; left; reflexivity | reflexivity].
Defined.

(** C4: [signin] succeeds exactly when an account of the store has the
    given email and secret, and otherwise returns the invalid-credentials
    result; after a successful [signup] with secret [S], [signin] with that
    email and [S] succeeds with the account that was created, and with any
    other secret it returns the invalid-credentials result. *)
Theorem signin_iff_credentials_match
    (w : World.t) (email password : string) :
  (AuthResponse.success (eval (signin email password) w) = true
   <-> exists u, In u (users_of (World.storage w))
                 /\ User.email u = email
                 /\ User.password u = Some password)
  /\ (AuthResponse.success (eval (signin email password) w) = false
      -> eval (signin email password) w = invalid_credentials)
  /\ (forall (phone name : option string),
        let '(created, w1) := signup email password phone name w in
        AuthResponse.success created = true ->
        (exists account,
            AuthResponse.user created = Some account
            /\ AuthResponse.success (eval (signin email password) w1) = true
            /\ AuthResponse.user (eval (signin email password) w1)
               = Some account)
        /\ (forall other, other <> password ->
               eval (signin email other) w1 = invalid_credentials)).
Proof.
  split; [|split].
  - rewrite signin_result.
    destruct (find (has_credentials email password) (users_of (World.storage w)))
      as [u|] eqn:E.
    + split; [intros _|reflexivity].
      apply find_some in E. destruct E as [Hin Hc].
      apply has_credentials_iff in Hc. now exists u.
    + split; [discriminate|].
      intros [u [Hin [He Hp]]].
      apply (find_none _ _ E) in Hin.
      assert (Hc : has_credentials email password u = true)
        by now apply has_credentials_iff.
      congruence.
  - rewrite signin_result.
    destruct (find (has_credentials email password) (users_of (World.storage w)));
      [discriminate | reflexivity].
  - intros phone name.
    pose proof (signup_success_fresh w email password phone name) as Hfresh.
    pose proof (signup_fresh w email password phone name) as Hs.
    unfold eval in Hfresh.
    destruct (signup email password phone name w) as [created w1].
    simpl in Hfresh. intro Hok. specialize (Hs (Hfresh Hok)).
    cbv zeta in Hs. destruct Hs as [Hr [Hu _]].
    assert (Hno : forall other y, In y (users_of (World.storage w)) ->
                    has_credentials email other y = false).
    { intros other y Hy. apply (find_none _ _ (Hfresh Hok)) in Hy.
      unfold has_credentials. unfold has_email in Hy. now rewrite Hy. }
    split.
    + eexists. rewrite signin_result, Hu, Hr.
      rewrite (find_snoc_fresh _ _ _ (Hno password)).
      unfold has_credentials, password_is. cbn.
      rewrite !String.eqb_refl. cbn. auto.
    + intros other Hneq. rewrite signin_result, Hu.
      rewrite (find_snoc_fresh _ _ _ (Hno other)).
      unfold has_credentials, password_is. cbn.
      apply String.eqb_neq in Hneq. rewrite String.eqb_sym in Hneq.
      rewrite Hneq, andb_false_r. reflexivity.
Qed.

Lemma signin_iff_credentials_match_witness :
  AuthResponse.success
    (eval (signin "a@x.com" "p1") (Sample.with_account Sample.fresh)) = true
  /\ eval (signin "a@x.com" "p2") (Sample.with_account Sample.fresh)
     = invalid_credentials.
Proof.
  pose proof (signin_iff_credentials_match Sample.fresh "a@x.com" "p1")
    as [_ [_ H]].
  specialize (H None None).
  unfold Sample.with_account, exec.
  assert (Hok : AuthResponse.success
                  (fst (signup "a@x.com" "p1" None None Sample.fresh)) = true)
    by (vm_compute; reflexivity).
  revert H Hok.
  destruct (signup "a@x.com" "p1" None None Sample.fresh) as [created w1].
  cbn [fst snd]. intros H Hok.
  destruct (H Hok) as [[account [_ [Hin _]]] Hother].
  split; [exact Hin | apply Hother; discriminate].
Defined.

(** C9: the account that [signin] returns and caches, and the account that
    [getUserById] resolves for the report operations, carry no [password]
    key, whatever the store holds. *)
Theorem exposed_accounts_carry_no_password
    (w : World.t) (email password : string) (userId : Z) :
  match AuthResponse.user (eval (signin email password) w) with
  | Some u => User.password u = None
  | None => True
  end
  /\ (AuthResponse.success (eval (signin email password) w) = true ->
      exists u,
        getCurrentUser (World.storage (exec (signin email password) w)) = Some u
        /\ AuthResponse.user (eval (signin email password) w) = Some u
        /\ User.password u = None)
  /\ match getUserById (World.storage w) userId with
     | Some u => User.password u = None
     | None => True
     end.
Proof.
  split; [|split].
  - rewrite signin_result.
    destruct (find (has_credentials email password) (users_of (World.storage w)));
      cbn; auto.
  - unfold eval, exec, signin, fallbackSignin, bind, getStorage.
    fold (has_credentials email password).
    destruct (find (has_credentials email password) (users_of (World.storage w)));
      cbn; [|discriminate].
    intros _. eexists. repeat split; reflexivity.
  - unfold getUserById.
    destruct (find (fun u => User.id u =? userId) (users_of (World.storage w)));
      cbn; auto.
Qed.

Lemma exposed_accounts_carry_no_password_witness :
  exists u,
    getCurrentUser
      (World.storage
         (exec (signin "a@x.com" "p1") (Sample.with_account Sample.fresh)))
    = Some u
    /\ User.password u = None.
Proof.
  destruct (exposed_accounts_carry_no_password
              (Sample.with_account Sample.fresh) "a@x.com" "p1" 0)
    as [_ [H _]].
  destruct (H eq_refl) as [u [Hu [_ Hp]]].
  exists u. split; assumption.
Defined.
End AuthFacts.

(** ** Activity log and reports *)

Module ReportFacts.
Import ApiClient Spec.

Lemma filter_length_perm {A : Type} (p : A -> bool) (l l' : list A) :
  Permutation l l' ->
  List.length (filter p l) = List.length (filter p l').
Proof.
  induction 1 as [| x l l' _ IH | x y l | l l' l'' _ IH1 _ IH2]; simpl.
  - reflexivity.
  - destruct (p x); simpl; congruence.
  - destruct (p x), (p y); reflexivity.
  - congruence.
Qed.

(** Every event carries exactly one of the five tags. *)
Lemma tags_partition (l : list ActivityLog.t) :
  (List.length (filter (is_event signin_event) l)
   + List.length (filter (is_event song_selection) l)
   + List.length (filter (is_event recording_complete) l)
   + List.length (filter (is_event payment) l)
   + List.length (filter (is_event signup_event) l)
   = List.length l)%nat.
Proof.
  induction l as [|a l IH]; simpl.
  - reflexivity.
  - unfold is_event in *.
    destruct (ActivityLog.eventType a); simpl; lia.
Qed.

Lemma filter_none {A : Type} (p : A -> bool) (l : list A) :
  Forall (fun a => p a = false) l -> filter p l = [].
Proof.
  induction 1 as [|a l Ha _ IH]; simpl.
  - reflexivity.
  - now rewrite Ha.
Qed.

Lemma filter_all {A : Type} (p : A -> bool) (l : list A) :
  Forall (fun a => p a = true) l -> filter p l = l.
Proof.
  induction 1 as [|a l Ha _ IH]; simpl.
  - reflexivity.
  - now rewrite Ha, IH.
Qed.

(** [getUserReport], once the account is resolved. *)
Lemma getUserReport_resolved (ls : LocalStorage.t) (userId : option Z)
    (u : User.t) :
  resolved ls userId = Some u ->
  let acts :=
    Js.sort by_recency (filter (owned_by (User.id u)) (activities_of ls)) in
  getUserReport ls userId
  = Some (UserReport.mk (User.id u) (User.email u) (User.name u)
            (List.length (filter (is_event signin_event) acts))
            (List.length (filter (is_event song_selection) acts))
            (List.length (filter (is_event recording_complete) acts))
            (List.length (filter (is_event payment) acts))
            (match acts with
             | first :: _ => ActivityLog.timestamp first
             | [] => User.created_at u
             end)
            acts).
Proof.
  unfold resolved, getUserReport. intro H.
  destruct userId as [i|]; simpl in H |- *; rewrite H; reflexivity.
Qed.

Lemma getUserReport_absent (ls : LocalStorage.t) (userId : option Z) :
  resolved ls userId = None -> getUserReport ls userId = None.
Proof.
  unfold resolved, getUserReport. intro H.
  destruct userId as [i|]; simpl in H |- *; rewrite H; reflexivity.
Qed.

(** One call of [logActivity] by a signed-in account appends one event,
    owned by that account and carrying the given tag, and touches nothing
    else in the store. *)
Lemma logActivity_appends (w : World.t) (u : User.t) (e : EventType)
    (d : option Details.t) :
  getCurrentUser (World.storage w) = Some u ->
  exists a,
    ActivityLog.userId a = User.id u
    /\ ActivityLog.eventType a = e
    /\ ActivityLog.timestamp a = World.clock w (S (World.reads w))
    /\ activities_of (World.storage (exec (logActivity e d) w))
       = activities_of (World.storage w) ++ [a]
    /\ LocalStorage.fallback_users (World.storage (exec (logActivity e d) w))
       = LocalStorage.fallback_users (World.storage w)
    /\ LocalStorage.user_data (World.storage (exec (logActivity e d) w))
       = LocalStorage.user_data (World.storage w).
Proof.
  intro H. unfold exec, logActivity, bind, getStorage. rewrite H. cbn.
  eexists. repeat split; reflexivity.
Qed.

Lemma logActivities_appends (evs : list (EventType * option Details.t)) :
  forall (w : World.t) (u : User.t),
    getCurrentUser (World.storage w) = Some u ->
    exists news,
      map ActivityLog.eventType news = map fst evs
      /\ Forall (fun a => ActivityLog.userId a = User.id u) news
      /\ activities_of (World.storage (exec (logActivities evs) w))
         = activities_of (World.storage w) ++ news
      /\ LocalStorage.fallback_users
           (World.storage (exec (logActivities evs) w))
         = LocalStorage.fallback_users (World.storage w)
      /\ LocalStorage.user_data (World.storage (exec (logActivities evs) w))
         = LocalStorage.user_data (World.storage w).
Proof.
  induction evs as [|[e d] evs IH]; intros w u Hu.
  - exists []. cbn. rewrite app_nil_r. auto.
  - destruct (logActivity_appends w u e d Hu)
      as [a [Ha [He [_ [Hlog [Husers Hdata]]]]]].
    assert (Hu' : getCurrentUser (World.storage (exec (logActivity e d) w))
                  = Some u)
      by (unfold getCurrentUser in *; congruence).
    destruct (IH _ u Hu') as [news [Hlen [Hown [Hlog' [Husers' Hdata']]]]].
    assert (Hexec : exec (logActivities ((e, d) :: evs)) w
                    = exec (logActivities evs) (exec (logActivity e d) w)).
    { unfold exec. simpl. unfold bind.
      destruct (logActivity e d w). reflexivity. }
    rewrite Hexec. exists (a :: news).
    repeat split.
    + simpl. congruence.
    + now constructor.
    + rewrite Hlog', Hlog, <- app_assoc. reflexivity.
    + congruence.
    + congruence.
Qed.

Lemma resolved_same_accounts (ls ls' : LocalStorage.t) (userId : option Z) :
  LocalStorage.fallback_users ls' = LocalStorage.fallback_users ls ->
  LocalStorage.user_data ls' = LocalStorage.user_data ls ->
  resolved ls' userId = resolved ls userId.
Proof.
  intros H1 H2.
  unfold resolved, getUserById, getCurrentUser, users_of.
  now rewrite H1, H2.
Qed.

Lemma count_through_map {A B : Type} (g : A -> B) (f : B -> bool)
    (l : list A) (l' : list B) :
  map g l = l' ->
  List.length (filter (fun a => f (g a)) l) = List.length (filter f l').
Proof.
  intros <-. induction l as [|a l IH]; simpl.
  - reflexivity.
  - destruct (f (g a)); simpl; congruence.
Qed.

Lemma owned_by_iff (i : Z) (a : ActivityLog.t) :
  owned_by i a = true <-> ActivityLog.userId a = i.
Proof. unfold owned_by. apply Z.eqb_eq. Qed.

Lemma not_strictly_sorted_on_tie (a b : ActivityLog.t) (l : list ActivityLog.t) :
  ActivityLog.timestamp a = ActivityLog.timestamp b ->
  ~ StronglySorted newer (a :: b :: l).
Proof.
  intros Heq H. inversion H as [|? ? _ Hall]; subst.
  inversion Hall as [|? ? Hab _]; subst.
  unfold newer in Hab. lia.
Qed.

(** C1, as the code has it: after a signed-in account with no event in
    the log has logged a sequence of N events, [getUserReport] for that
    account returns a report with exactly N entries, all owned by the
    account; its four tallies sum to N less the number of [signup] events,
    which have no tally; the entries are in non-increasing order of
    timestamp, and entries with equal timestamps keep the order in which
    they were logged. *)
Theorem report_after_logging
    (w : World.t) (u account : User.t) (userId : option Z)
    (evs : list (EventType * option Details.t)) :
  getCurrentUser (World.storage w) = Some u ->
  resolved (World.storage w) userId = Some account ->
  User.id account = User.id u ->
  Forall (fun a => ActivityLog.userId a <> User.id u)
    (activities_of (World.storage w)) ->
  let ls' := World.storage (exec (logActivities evs) w) in
  exists r,
    getUserReport ls' userId = Some r
    /\ UserReport.userId r = User.id u
    /\ List.length (UserReport.activities r) = List.length evs
    /\ Forall (fun a => ActivityLog.userId a = User.id u)
         (UserReport.activities r)
    /\ (total_of r + signups evs = List.length evs)%nat
    /\ StronglySorted not_older (UserReport.activities r)
    /\ (forall t,
          filter (at_time t) (UserReport.activities r)
          = filter (at_time t) (filter (owned_by (User.id u)) (activities_of ls'))).
Proof.
  intros Hu Hres Hid Hold ls'.
  destruct (logActivities_appends evs w u Hu)
    as [news [Htags [Hown [Hlog [Husers Hdata]]]]].
  fold ls' in Hlog, Husers, Hdata.
  assert (Hres' : resolved ls' userId = Some account)
    by (rewrite (resolved_same_accounts _ _ _ Husers Hdata); exact Hres).
  assert (Hmine : filter (owned_by (User.id u)) (activities_of ls') = news).
  { rewrite Hlog, filter_app, filter_none, filter_all; [reflexivity| |].
    - eapply Forall_impl; [|exact Hown]. intros a Ha. now apply owned_by_iff.
    - eapply Forall_impl; [|exact Hold]. intros a Ha.
      unfold owned_by. now apply Z.eqb_neq. }
  rewrite (getUserReport_resolved _ _ _ Hres'). cbv zeta.
  rewrite Hid, Hmine.
  eexists. split; [reflexivity|]. cbn [UserReport.userId UserReport.activities].
  assert (Hlen : List.length news = List.length evs)
    by (rewrite <- (length_map ActivityLog.eventType), Htags; apply length_map).
  repeat split.
  - rewrite JsFacts.sort_length. exact Hlen.
  - apply JsFacts.sort_Forall. exact Hown.
  - unfold total_of. cbn.
    pose proof (tags_partition (Js.sort by_recency news)) as Hp.
    rewrite JsFacts.sort_length in Hp.
    assert (Hs : List.length (filter (is_event signup_event)
                                (Js.sort by_recency news)) = signups evs).
    { rewrite (filter_length_perm _ _ _ (JsFacts.sort_perm by_recency news)).
      unfold signups.
      transitivity (List.length (filter (fun e => EventType_eqb e signup_event)
                                   (map fst evs))).
      - apply (count_through_map ActivityLog.eventType
                 (fun e => EventType_eqb e signup_event) news _ Htags).
      - symmetry.
        apply (count_through_map fst
                 (fun e => EventType_eqb e signup_event) evs _ eq_refl). }
    lia.
  - apply (JsFacts.sort_descending ActivityLog.timestamp).
  - intro t. apply (JsFacts.sort_stable ActivityLog.timestamp).
Qed.

Lemma report_after_logging_witness :
  exists r,
    getUserReport
      (World.storage
         (exec (logActivities Sample.signup_then_signin)
            (Sample.with_silent_account Sample.fresh))) None
    = Some r
    /\ List.length (UserReport.activities r) = 2%nat
    /\ (total_of r + 1 = 2)%nat.
Proof.
  assert (Hu : getCurrentUser
                 (World.storage (Sample.with_silent_account Sample.fresh))
               = Some Sample.silent_account) by (vm_compute; reflexivity).
  assert (Hold : Forall (fun a => ActivityLog.userId a
                                  <> User.id Sample.silent_account)
                   (activities_of
                      (World.storage (Sample.with_silent_account Sample.fresh))))
    by (vm_compute; constructor).
  destruct (report_after_logging
              (Sample.with_silent_account Sample.fresh)
              Sample.silent_account Sample.silent_account
              None Sample.signup_then_signin Hu Hu eq_refl Hold)
    as [r [Hr [_ [Hlen [_ [Htot _]]]]]].
  exists r. split; [exact Hr | split; [exact Hlen | exact Htot]].
Defined.

(** C1 as worded fails: on a clock that stands still, an account that
    logs a [signup] and a [signin] event gets a report of two entries whose
    tallies sum to 1 and whose two timestamps are equal.  The store is the
    one that [signup] followed by [signin] leaves. *)
Lemma report_as_stated_counterexample :
  let w := Sample.with_silent_account Sample.frozen in
  let evs := Sample.signup_then_signin in
  getCurrentUser (World.storage w) = Some Sample.frozen_account
  /\ activities_of (World.storage w) = []
  /\ World.storage (exec (logActivities evs) w)
     = World.storage
         (exec (signup "a@x.com" "p1" None None ;; signin "a@x.com" "p1")
            Sample.frozen)
  /\ getUserReport (World.storage (exec (logActivities evs) w)) None
     = Some Sample.frozen_report
  /\ total_of Sample.frozen_report = 1%nat
  /\ ~ StronglySorted newer (UserReport.activities Sample.frozen_report)
  /\ ~ report_as_stated (User.id Sample.frozen_account) (List.length evs)
         Sample.frozen_report.
Proof.
  cbv zeta.
  split; [vm_compute; reflexivity|].
  split; [vm_compute; reflexivity|].
  split; [vm_compute; reflexivity|].
  split; [vm_compute; reflexivity|].
  split; [reflexivity|].
  split.
  - apply not_strictly_sorted_on_tie. reflexivity.
  - intros [_ [_ [Htot _]]]. discriminate Htot.
Qed.



Lemma StronglySorted_app_l {A : Type} (R : A -> A -> Prop) (l l' : list A) :
  StronglySorted R (l ++ l') -> StronglySorted R l.
Proof.
  induction l as [|a l IH]; simpl; intro H.
  - constructor.
  - inversion H as [|? ? Hl Ha]; subst. constructor.
    + now apply IH.
    + rewrite Forall_app in Ha. tauto.
Qed.

(** C7, as the code has it: for a limit [k >= 0], [getTopUsers(k)]
    returns at most [k] reports, each ranked by the sum of its four
    tallies, in non-increasing order of that sum, and the reports of any
    one sum are, in their original order, the first of the reports with
    that sum. *)
Theorem getTopUsers_bounded_sorted_stable (ls : LocalStorage.t) (k : Z) :
  0 <= k ->
  let top := getTopUsers ls (Some k) in
  Z.of_nat (List.length top) <= k
  /\ (List.length top <= List.length (users_of ls))%nat
  /\ Forall (fun r => RankedReport.totalActivity r
                      = total_of (RankedReport.report r)) top
  /\ StronglySorted ranks_not_below top
  /\ (forall t, exists rest,
         filter (with_total t) (map ranked (getAllUserReports ls))
         = filter (with_total t) top ++ rest).
Proof.
  intros Hk top.
  set (all := map ranked (getAllUserReports ls)).
  set (key := fun r : RankedReport.t => Z.of_nat (RankedReport.totalActivity r)).
  assert (Htop : top = Js.slice0 (Js.sort by_totalActivity all) k) by reflexivity.
  destruct (JsFacts.slice0_prefix (Js.sort by_totalActivity all) k)
    as [rest Hrest].
  rewrite <- Htop in Hrest.
  assert (Hall : Forall (fun r => RankedReport.totalActivity r
                                  = total_of (RankedReport.report r))
                   (Js.sort by_totalActivity all)).
  { apply JsFacts.sort_Forall. unfold all. apply Forall_forall.
    intros r Hr. apply in_map_iff in Hr. destruct Hr as [x [<- _]].
    reflexivity. }
  assert (Hsorted : StronglySorted ranks_not_below (top ++ rest)).
  { rewrite <- Hrest.
    pose proof (JsFacts.sort_descending key all) as Hd.
    eapply StronglySorted_ind with (P := StronglySorted ranks_not_below);
      [constructor | | exact Hd].
    intros a l _ IH Ha. constructor; [exact IH|].
    eapply Forall_impl; [|exact Ha].
    unfold descending, key, ranks_not_below. intros; lia. }
  split; [|split; [|split; [|split]]].
  - rewrite Htop. now apply JsFacts.slice0_length.
  - transitivity (List.length (Js.sort by_totalActivity all)).
    + rewrite Hrest, length_app. lia.
    + rewrite JsFacts.sort_length. unfold all. rewrite length_map.
      unfold getAllUserReports.
      rewrite <- (length_map (fun user => getUserReport ls (Some (User.id user)))
                    (users_of ls)).
      generalize (map (fun user => getUserReport ls (Some (User.id user)))
                    (users_of ls)).
      induction l as [|[x|] l IH]; simpl; lia.
  - rewrite Hrest in Hall. rewrite Forall_app in Hall. tauto.
  - now apply StronglySorted_app_l in Hsorted.
  - intro t. exists (filter (with_total t) rest).
    rewrite <- filter_app, <- Hrest.
    assert (Hext : forall l,
               filter (with_total t) l
               = filter (fun a => key a =? Z.of_nat t) l).
    { intro l. apply filter_ext. intro a. unfold with_total, key.
      destruct (Nat.eqb_spec (RankedReport.totalActivity a) t);
        [apply eq_sym, Z.eqb_eq | apply eq_sym, Z.eqb_neq]; lia. }
    rewrite !Hext. symmetry. apply (JsFacts.sort_stable key).
Qed.

Lemma getTopUsers_bounded_sorted_stable_witness :
  Z.of_nat (List.length (getTopUsers Scenario.three_accounts (Some 2))) <= 2
  /\ StronglySorted ranks_not_below
       (getTopUsers Scenario.three_accounts (Some 2))
  /\ (exists rest,
        filter (with_total 1)
          (map ranked (getAllUserReports Scenario.three_accounts))
        = filter (with_total 1)
            (getTopUsers Scenario.three_accounts (Some 2)) ++ rest).
Proof.
  destruct (getTopUsers_bounded_sorted_stable Scenario.three_accounts 2)
    as [Hlen [_ [_ [Hsorted Hstable]]]].
  - lia.
  - split; [exact Hlen|]. split; [exact Hsorted | exact (Hstable 1%nat)].
Defined.

(** The ranking of the three accounts: the second account first, then,
    of the two accounts that tie, the one that comes first in the account
    list. *)
Example getTopUsers_breaks_ties_by_position :
  map (fun r => (UserReport.email (RankedReport.report r),
                 RankedReport.totalActivity r))
    (getTopUsers Scenario.three_accounts (Some 2))
  = [("b@x.com", 2%nat); ("a@x.com", 1%nat)].
Proof. vm_compute. reflexivity. Qed.

(** C7 as worded, for every limit, fails at a negative one: with the
    limit -1 a store of two accounts gets one report, which is not at
    most -1 reports. *)
Lemma getTopUsers_every_limit_counterexample :
  List.length (getAllUserReports Sample.two_accounts) = 2%nat
  /\ List.length (getTopUsers Sample.two_accounts (Some (-1))) = 1%nat
  /\ ~ (Z.of_nat (List.length (getTopUsers Sample.two_accounts (Some (-1))))
        <= -1).
Proof.
  split; [vm_compute; reflexivity|].
  assert (H : List.length (getTopUsers Sample.two_accounts (Some (-1)))
              = 1%nat) by (vm_compute; reflexivity).
  split; [exact H|]. rewrite H. lia.
Qed.

(** A negative limit is an offset from the end of the ranking, as
    [slice] has it, not a count. *)
Example getTopUsers_negative_limit :
  List.length (getTopUsers Sample.two_accounts None) = 2%nat
  /\ List.length (getTopUsers Sample.two_accounts (Some (-1))) = 1%nat.
Proof. split; vm_compute; reflexivity. Qed.
End ReportFacts.

(** ** The exported table *)

Module ExportFacts.
Import ApiClient Spec.

Lemma contains_append (c : ascii) (a b : string) :
  contains c (a ++ b) = contains c a || contains c b.
Proof.
  unfold contains. induction a as [|x a IH]; simpl.
  - reflexivity.
  - rewrite IH. apply orb_assoc.
Qed.

Lemma split_at_one_line (sep : ascii) (s : string) :
  contains sep s = false -> Js.split_at sep s = [s].
Proof.
  unfold contains. induction s as [|c s IH]; simpl; intro H.
  - reflexivity.
  - apply orb_false_elim in H. destruct H as [Hc Hs].
    rewrite Ascii.eqb_sym, Hc, (IH Hs). reflexivity.
Qed.

Lemma split_at_first (sep : ascii) (a b : string) :
  contains sep a = false ->
  Js.split_at sep (a ++ String sep b) = a :: Js.split_at sep b.
Proof.
  unfold contains. induction a as [|c a IH]; simpl; intro H.
  - now rewrite Ascii.eqb_refl.
  - apply orb_false_elim in H. destruct H as [Hc Ha].
    rewrite Ascii.eqb_sym, Hc, (IH Ha). reflexivity.
Qed.

(** Splitting at line feeds undoes joining with line feeds, when no
    joined string holds one. *)
Lemma lines_join (x : string) (xs : list string) :
  Forall one_line (x :: xs) ->
  Js.lines (Js.join Js.lf (x :: xs)) = x :: xs.
Proof.
  revert x. induction xs as [|y ys IH]; intros x H.
  - inversion H; subst. now apply split_at_one_line.
  - inversion H as [|? ? Hx Hrest]; subst.
    change (Js.join Js.lf (x :: y :: ys))
      with (x ++ String Js.LF (Js.join Js.lf (y :: ys)))%string.
    unfold Js.lines. rewrite (split_at_first _ _ _ Hx).
    f_equal. now apply IH.
Qed.

Lemma one_line_append (a b : string) :
  one_line a -> one_line b -> one_line (a ++ b).
Proof.
  unfold one_line. intros Ha Hb. now rewrite contains_append, Ha, Hb.
Qed.

Lemma one_line_uint (d : Decimal.uint) :
  one_line (NilEmpty.string_of_uint d).
Proof.
  unfold one_line, contains.
  induction d; simpl; try reflexivity; exact IHd.
Qed.

Lemma one_line_NilZero_uint (d : Decimal.uint) :
  one_line (NilZero.string_of_uint d).
Proof.
  destruct d; [reflexivity | ..];
    match goal with
    | |- one_line (NilZero.string_of_uint ?x) => exact (one_line_uint x)
    end.
Qed.

Lemma one_line_string_of_Z (z : Z) : one_line (Js.string_of_Z z).
Proof.
  unfold Js.string_of_Z, NilZero.string_of_int.
  destruct (Z.to_int z) as [d|d].
  - apply one_line_NilZero_uint.
  - change (one_line ("-" ++ NilZero.string_of_uint d)).
    apply one_line_append; [reflexivity | apply one_line_NilZero_uint].
Qed.

Lemma append_assoc (a b c : string) :
  ((a ++ b) ++ c)%string = (a ++ (b ++ c))%string.
Proof.
  induction a as [|x a IH]; simpl.
  - reflexivity.
  - now rewrite IH.
Qed.

(** [join(",")] of the cells of a row is the row written out. *)
Lemma row_text (tl : Timestamp -> string) (r : UserReport.t) :
  Js.join "," (row_cells tl r) = data_row tl r.
Proof.
  unfold row_cells, data_row, quoted. cbn [Js.join].
  rewrite !append_assoc. reflexivity.
Qed.

Lemma header_text : Js.join "," headers = header_row.
Proof. reflexivity. Qed.

Lemma one_line_data_row (tl : Timestamp -> string) (r : UserReport.t) :
  one_line (UserReport.email r) ->
  one_line (Js.or_empty (UserReport.artistName r)) ->
  one_line (tl (UserReport.lastActivity r)) ->
  one_line (data_row tl r).
Proof.
  intros He Hn Ht. unfold data_row, Js.string_of_nat.
  repeat (apply one_line_append);
    try apply one_line_string_of_Z; try assumption; reflexivity.
Qed.

(** Every account of a store whose identifiers are not [0] gets a report,
    built from an account of the store. *)
Lemma reports_of_accounts (ls : LocalStorage.t) :
  Forall (fun u => User.id u <> 0) (users_of ls) ->
  List.length (getAllUserReports ls) = List.length (users_of ls)
  /\ Forall (fun r => exists u, In u (users_of ls)
                                /\ UserReport.email r = User.email u
                                /\ UserReport.artistName r = User.name u)
       (getAllUserReports ls).
Proof.
  unfold getAllUserReports.
  assert (Hreport : forall u, In u (users_of ls) -> User.id u <> 0 ->
            exists v r, In v (users_of ls)
                        /\ getUserReport ls (Some (User.id u)) = Some r
                        /\ UserReport.email r = User.email v
                        /\ UserReport.artistName r = User.name v).
  { intros u Hin Hid.
    assert (Hres : exists v, In v (users_of ls)
                     /\ resolved ls (Some (User.id u))
                        = Some (User.without_password v)).
    { unfold resolved, Js.truthy_number, getUserById.
      apply Z.eqb_neq in Hid. rewrite Hid. cbn.
      destruct (find (fun x => User.id x =? User.id u) (users_of ls))
        as [v|] eqn:E.
      - exists v. apply find_some in E. tauto.
      - apply (find_none _ _ E) in Hin. rewrite Z.eqb_refl in Hin.
        discriminate. }
    destruct Hres as [v [Hv Hres]]. exists v.
    rewrite (ReportFacts.getUserReport_resolved _ _ _ Hres).
    eexists. split; [exact Hv|]. split; [reflexivity|]. split; reflexivity. }
  generalize dependent (users_of ls). intros us Hreport.
  assert (Hgen : forall l, incl l us -> Forall (fun u => User.id u <> 0) l ->
            List.length
              (Js.filter_Boolean
                 (map (fun user => getUserReport ls (Some (User.id user))) l))
            = List.length l
            /\ Forall (fun r => exists u, In u us
                                /\ UserReport.email r = User.email u
                                /\ UserReport.artistName r = User.name u)
                 (Js.filter_Boolean
                    (map (fun user => getUserReport ls (Some (User.id user))) l))).
  { induction l as [|u l IH]; intros Hincl Hids.
    - split; [reflexivity | constructor].
    - inversion Hids as [|? ? Hid Hids']; subst.
      destruct (Hreport u (Hincl u (or_introl eq_refl)) Hid)
        as [v [r [Hv [Hr [He Hn]]]]].
      destruct (IH (fun x Hx => Hincl x (or_intror Hx)) Hids') as [Hlen Hall].
      simpl. rewrite Hr. simpl. split; [congruence|].
      constructor; [|exact Hall]. exists v. auto. }
  intro Hids. apply Hgen; [apply incl_refl | exact Hids].
Qed.

(** C8, as the code has it: the export is the header row and one row per
    report joined by line feeds, each row holding the email and the display
    name (or nothing) between double quotes with no character escaped, and
    the host's rendering of the last activity likewise; when no account
    identifier is [0] and no email, display name or rendered date holds a
    line feed, these are exactly its lines, 1 + M of them for M accounts. *)
Theorem exportUserData_lines
    (toLocaleString : Timestamp -> string) (ls : LocalStorage.t) :
  Forall (fun u => User.id u <> 0) (users_of ls) ->
  Forall (fun u => one_line (User.email u)
                   /\ one_line (Js.or_empty (User.name u))) (users_of ls) ->
  (forall t, one_line (toLocaleString t)) ->
  exportUserData toLocaleString ls
  = Js.join Js.lf
      (header_row :: map (data_row toLocaleString) (getAllUserReports ls))
  /\ Js.lines (exportUserData toLocaleString ls)
     = header_row :: map (data_row toLocaleString) (getAllUserReports ls)
  /\ List.length (Js.lines (exportUserData toLocaleString ls))
     = (1 + List.length (users_of ls))%nat.
Proof.
  intros Hids Hlines Htl.
  destruct (reports_of_accounts ls Hids) as [Hlen Hfrom].
  assert (Htext : exportUserData toLocaleString ls
                  = Js.join Js.lf
                      (header_row
                       :: map (data_row toLocaleString) (getAllUserReports ls))).
  { unfold exportUserData. rewrite header_text. f_equal. f_equal.
    apply map_ext. intro r. apply row_text. }
  assert (Hrows : Js.lines (exportUserData toLocaleString ls)
                  = header_row
                    :: map (data_row toLocaleString) (getAllUserReports ls)).
  { rewrite Htext. apply lines_join. constructor; [reflexivity|].
    apply Forall_map. eapply Forall_impl; [|exact Hfrom].
    intros r [u [Hu [He Hn]]].
    rewrite Forall_forall in Hlines. destruct (Hlines u Hu) as [H1 H2].
    apply one_line_data_row; [now rewrite He | now rewrite Hn | apply Htl]. }
  split; [exact Htext|]. split; [exact Hrows|].
  rewrite Hrows. simpl. now rewrite length_map, Hlen.
Qed.

Lemma exportUserData_lines_witness :
  List.length
    (Js.lines
       (exportUserData Sample.en_US
          (World.storage (Sample.with_account Sample.fresh))))
  = (1 + List.length
           (users_of (World.storage (Sample.with_account Sample.fresh))))%nat.
Proof.
  apply (exportUserData_lines Sample.en_US
           (World.storage (Sample.with_account Sample.fresh))).
  - vm_compute. constructor; [discriminate | constructor].
  - vm_compute. constructor; [split; reflexivity | constructor].
  - intro t. vm_compute. reflexivity.
Defined.

(** C8 as worded fails: an account whose display name holds a line feed
    makes the export of a one-account store three lines long. *)
Lemma export_line_count_counterexample :
  List.length (users_of Sample.with_two_line_name) = 1%nat
  /\ List.length
       (Js.lines (exportUserData Sample.en_US Sample.with_two_line_name))
     = 3%nat
  /\ List.length
       (Js.lines (exportUserData Sample.en_US Sample.with_two_line_name))
     <> (1 + List.length (users_of Sample.with_two_line_name))%nat.
Proof.
  split; [vm_compute; reflexivity|].
  split; [vm_compute; reflexivity|].
  vm_compute. discriminate.
Qed.
End ExportFacts.

(** ** Purchases *)

Module PurchaseFacts.
Import ApiClient Spec.

(** C5: [savePurchase] appends the record to the local list of purchases
    and only then, if at all, calls the remote service; when the remote
    path is off, or the remote call fails, the result is a success, with
    the degraded message in the second case, and the record stays in the
    store; under the module's flag every call succeeds. *)
Theorem savePurchase_local_first
    (use_fallback : bool) (purchaseData : PurchaseData.t) (w : World.t) :
  let record :=
    Purchase.mk purchaseData (World.clock w (World.reads w))
      (World.clock w (S (World.reads w))) in
  let r := eval (savePurchase_with use_fallback purchaseData) w in
  let w' := exec (savePurchase_with use_fallback purchaseData) w in
  purchases_of (World.storage w') = purchases_of (World.storage w) ++ [record]
  /\ World.trace w'
     = World.trace w
       ++ SetItem "user_purchases"
          :: (if use_fallback then []
              else [Fetch (API_BASE_URL ++ "/api/purchases")%string])
  /\ (use_fallback = true -> r = saved)
  /\ (use_fallback = false ->
      remote_failed (World.remote w (World.fetches w)) = true ->
      r = saved_locally)
  /\ SaveResult.success (eval (savePurchase purchaseData) w) = true
  /\ purchases_of (World.storage (exec (savePurchase purchaseData) w))
     = purchases_of (World.storage w) ++ [record].
Proof.
  cbv zeta.
  unfold savePurchase, USE_FALLBACK, eval, exec, savePurchase_with, bind,
    getStorage, Date_now, setItem_user_purchases, putStorage, fetch, ret.
  cbn [fst snd World.storage World.trace World.clock World.reads
       World.remote World.fetches LocalStorage.user_purchases].
  destruct use_fallback; cbn.
  - repeat split; try reflexivity. discriminate.
  - destruct (World.remote w (World.fetches w)) as [|[|] [body|]]; cbn;
      rewrite <- ?app_assoc; repeat split; try reflexivity;
      try discriminate.
Qed.

Lemma savePurchase_local_first_witness :
  eval (savePurchase_with false Sample.a_purchase) Sample.fresh = saved_locally
  /\ eval (savePurchase_with true Sample.a_purchase) Sample.fresh = saved.
Proof.
  destruct (savePurchase_local_first false Sample.a_purchase Sample.fresh)
    as [_ [_ [_ [Hremote _]]]].
  destruct (savePurchase_local_first true Sample.a_purchase Sample.fresh)
    as [_ [_ [Hlocal _]]].
  split; [apply Hremote; reflexivity | apply Hlocal; reflexivity].
Defined.
End PurchaseFacts.

(** ** The recording session *)

Module SessionFacts.
Import KaraokeRecording.

(** C6: while the session is recording and less than one second has
    elapsed, [stopRecording] is refused: the session stays recording, the
    recorder is left as it was, with no stop event queued, nothing is
    written to the artifact, and the counter and its timer run on; the
    only trace of the call is the alert. *)
Theorem stop_before_one_second_refused (s : Session) :
  isRecording s = true ->
  recordingTime s < 1 ->
  stopRecording s
  = match mediaRecorderRef s with
    | Some _ =>
        alert "Please record for at least 1 second before stopping." s
    | None => s
    end
  /\ isRecording (stopRecording s) = true
  /\ mediaRecorderRef (stopRecording s) = mediaRecorderRef s
  /\ recordedBlob (stopRecording s) = recordedBlob s
  /\ recordedChunksRef (stopRecording s) = recordedChunksRef s
  /\ recordingTime (stopRecording s) = recordingTime s
  /\ recordingTimerRef (stopRecording s) = recordingTimerRef s
  /\ state_of (stopRecording s) = state_of s.
Proof.
  intros Hrec Htime. apply Z.ltb_lt in Htime.
  assert (Hstop : stopRecording s
                  = match mediaRecorderRef s with
                    | Some _ =>
                        alert "Please record for at least 1 second before stopping." s
                    | None => s
                    end).
  { unfold stopRecording. destruct (mediaRecorderRef s); [|reflexivity].
    now rewrite Hrec, Htime. }
  split; [exact Hstop|]. rewrite Hstop.
  destruct (mediaRecorderRef s) as [r|] eqn:Hr;
    unfold state_of; cbn; rewrite ?Hr, ?Hrec; auto 10.
Qed.

Lemma stop_before_one_second_refused_witness :
  isRecording (stopRecording Sample.just_started) = true
  /\ state_of (stopRecording Sample.just_started) = Recording.
Proof.
  destruct (stop_before_one_second_refused Sample.just_started)
    as [_ [Hrec [_ [_ [_ [_ [_ Hstate]]]]]]].
  - reflexivity.
  - reflexivity.
  - split; [exact Hrec | rewrite Hstate; reflexivity].
Defined.

(** From [Ready], from [Stopped], and from [Recording] once a second has
    elapsed, [restartRecording] leaves the session [Ready], with no
    artifact and the counter and the reference video at 0. *)
Lemma restart_reaches_ready (s : Session) :
  hasPermission s = true ->
  (isRecording s = true ->
   1 <= recordingTime s /\ mediaRecorderRef s <> None) ->
  state_of (restartRecording s) = Ready
  /\ isRecording (restartRecording s) = false
  /\ recordedBlob (restartRecording s) = None
  /\ recordingTime (restartRecording s) = 0
  /\ match karaokeVideoRef (restartRecording s) with
     | Some v => currentTime v = 0 /\ paused v = true
     | None => True
     end.
Proof.
  destruct s as [rec blob time perm playing err video mr stream timer chunks al].
  cbn [hasPermission isRecording recordingTime mediaRecorderRef].
  intros -> Hguard.
  unfold restartRecording, stopRecording, state_of, pause_video.
  destruct rec.
  - destruct (Hguard eq_refl) as [Htime Hsome].
    destruct mr as [r|]; [|congruence].
    assert (Hlt : (time <? 1) = false) by (apply Z.ltb_ge; lia).
    cbn. rewrite Hlt. destruct video, timer; cbn; auto 10.
  - destruct mr, video; cbn; auto 10.
Qed.

(** Within the first second of a recording the guard of [stopRecording]
    makes [restartRecording] leave the session recording. *)
Lemma restart_refused_by_guard (s : Session) :
  isRecording s = true ->
  recordingTime s < 1 ->
  isRecording (restartRecording s) = true
  /\ mediaRecorderRef (restartRecording s) = mediaRecorderRef s
  /\ recordingTimerRef (restartRecording s) = recordingTimerRef s.
Proof.
  destruct s as [rec blob time perm playing err video mr stream timer chunks al].
  cbn [isRecording recordingTime mediaRecorderRef recordingTimerRef].
  intros -> Htime. apply Z.ltb_lt in Htime.
  unfold restartRecording, stopRecording.
  destruct mr, video; cbn; rewrite ?Htime; cbn; auto.
Qed.

(** C2 fails on a session that has just started recording: [restart]
    runs into the one-second guard of [stopRecording], which alerts and
    returns, and the session is left recording, the recorder capturing and
    the timer armed, with the counter at 0 and the reference video paused
    at 0. *)
Theorem restart_within_first_second_keeps_recording :
  state_of Sample.granted = Ready
  /\ state_of Sample.just_started = Recording
  /\ recordingTime Sample.just_started = 0
  /\ state_of (restartRecording Sample.just_started) = Recording
  /\ isRecording (restartRecording Sample.just_started) = true
  /\ mediaRecorderRef (restartRecording Sample.just_started)
     = Some (mkRecorder "video/webm" true false)
  /\ recordingTimerRef (restartRecording Sample.just_started) = true
  /\ karaokeVideoRef (restartRecording Sample.just_started)
     = Some (mkVideo 0 true)
  /\ alerts (restartRecording Sample.just_started)
     = ["Please record for at least 1 second before stopping."].
Proof. repeat split. Qed.

(** After a restart later in the recording the stop event that
    [stopRecording] queued is still delivered, and [onstop] stores the
    artifact of the recording that was given up. *)
Lemma restart_then_stop_event :
  state_of (restartRecording Sample.two_seconds_in) = Ready
  /\ state_of (onstop (restartRecording Sample.two_seconds_in))
     = Stopped (mkBlob 6144 "video/webm").
Proof. split; reflexivity. Qed.
End SessionFacts.

(** ** What the calls of the client do to the store *)

Module StoreLaws.
Import ApiClient Spec Client.

Lemma exec_bind {A B : Type} (m : M A) (k : A -> M B) (w : World.t) :
  exec (bind m k) w = exec (k (eval m w)) (exec m w).
Proof. unfold exec, eval, bind. destruct (m w). reflexivity. Qed.

Lemma exec_run_cons (op : Op) (ops : list Op) (w : World.t) :
  exec (run (op :: ops)) w = exec (run ops) (exec (call op) w).
Proof. simpl. apply exec_bind. Qed.

Lemma exec_run_app (ops ops' : list Op) (w : World.t) :
  exec (run (ops ++ ops')) w = exec (run ops') (exec (run ops) w).
Proof.
  revert w. induction ops as [|op ops IH]; intro w.
  - reflexivity.
  - rewrite <- app_comm_cons, !exec_run_cons. apply IH.
Qed.

(** The store after [logActivity]. *)
Lemma logActivity_storage (e : EventType) (d : option Details.t) (w : World.t) :
  World.storage (exec (logActivity e d) w)
  = match getCurrentUser (World.storage w) with
    | Some user =>
        LocalStorage.mk
          (LocalStorage.fallback_users (World.storage w))
          (LocalStorage.auth_token (World.storage w))
          (LocalStorage.user_data (World.storage w))
          (Some (activities_of (World.storage w)
                 ++ [ActivityLog.mk
                       (Js.string_of_Z (World.clock w (World.reads w))
                        ++ "_" ++ World.entropy w (World.draws w))%string
                       (User.id user) e
                       (World.clock w (S (World.reads w))) d]))
          (LocalStorage.user_purchases (World.storage w))
    | None => World.storage w
    end.
Proof.
  unfold exec, logActivity, bind, getStorage.
  destruct (getCurrentUser (World.storage w)); reflexivity.
Qed.

(** The store after [signup]. *)
Lemma signup_storage (email password : string) (phone name : option string)
    (w : World.t) :
  World.storage (exec (signup email password phone name) w)
  = match find (has_email email) (users_of (World.storage w)) with
    | Some _ => World.storage w
    | None =>
        let newUser :=
          User.mk (World.clock w (World.reads w)) email phone name
            (World.clock w (S (World.reads w))) None in
        LocalStorage.mk
          (Some (users_of (World.storage w)
                 ++ [User.with_password newUser password]))
          (Some (token_of (User.id newUser)))
          (Some newUser)
          (Some (activities_of (World.storage w)
                 ++ [ActivityLog.mk
                       (Js.string_of_Z (World.clock w (S (S (World.reads w))))
                        ++ "_" ++ World.entropy w (World.draws w))%string
                       (User.id newUser) signup_event
                       (World.clock w (S (S (S (World.reads w)))))
                       (Some (Details.mk None None None (Some email)
                                phone name))]))
          (LocalStorage.user_purchases (World.storage w))
    end.
Proof.
  unfold exec, signup, fallbackSignup, bind, getStorage.
  fold (has_email email).
  destruct (find (has_email email) (users_of (World.storage w))); reflexivity.
Qed.

(** The store after [signin]. *)
Lemma signin_storage (email password : string) (w : World.t) :
  World.storage (exec (signin email password) w)
  = match find (has_credentials email password)
            (users_of (World.storage w)) with
    | None => World.storage w
    | Some user =>
        LocalStorage.mk
          (LocalStorage.fallback_users (World.storage w))
          (Some (token_of (User.id user)))
          (Some (User.without_password user))
          (Some (activities_of (World.storage w)
                 ++ [ActivityLog.mk
                       (Js.string_of_Z (World.clock w (World.reads w))
                        ++ "_" ++ World.entropy w (World.draws w))%string
                       (User.id user) signin_event
                       (World.clock w (S (World.reads w)))
                       (Some (Details.mk None None None (Some email)
                                None None))]))
          (LocalStorage.user_purchases (World.storage w))
    end.
Proof.
  unfold exec, signin, fallbackSignin, bind, getStorage.
  fold (has_credentials email password).
  destruct (find (has_credentials email password)
              (users_of (World.storage w))); reflexivity.
Qed.

Lemma logout_storage (w : World.t) :
  World.storage (exec logout w)
  = LocalStorage.mk (LocalStorage.fallback_users (World.storage w)) None None
      (LocalStorage.user_activities (World.storage w))
      (LocalStorage.user_purchases (World.storage w)).
Proof. reflexivity. Qed.

Lemma savePurchase_storage (purchaseData : PurchaseData.t) (w : World.t) :
  World.storage (exec (savePurchase purchaseData) w)
  = LocalStorage.mk (LocalStorage.fallback_users (World.storage w))
      (LocalStorage.auth_token (World.storage w))
      (LocalStorage.user_data (World.storage w))
      (LocalStorage.user_activities (World.storage w))
      (Some (purchases_of (World.storage w)
             ++ [Purchase.mk purchaseData (World.clock w (World.reads w))
                   (World.clock w (S (World.reads w)))])).
Proof. reflexivity. Qed.

(** The store after any one call, in terms of the five equations above. *)
Lemma call_storage (op : Op) (w : World.t) :
  World.storage (exec (call op) w)
  = match op with
    | Signup email password phone name =>
        World.storage (exec (signup email password phone name) w)
    | Signin email password =>
        World.storage (exec (signin email password) w)
    | Logout => World.storage (exec logout w)
    | LogSongSelection t c =>
        World.storage (exec (logSongSelection t c) w)
    | LogRecordingComplete t c =>
        World.storage (exec (logRecordingComplete t c) w)
    | LogPayment t c a => World.storage (exec (logPayment t c a) w)
    | SavePurchase p => World.storage (exec (savePurchase p) w)
    end.
Proof.
  destruct op; try reflexivity; unfold call; rewrite exec_bind; reflexivity.
Qed.

(** Case analysis on one call: which call it is, and which branch of it
    runs. *)
Ltac call_cases op w :=
  rewrite (call_storage op w);
  destruct op as [email password phone name | email password |
                  | songTitle category | songTitle category
                  | songTitle category amount | purchaseData];
  [ rewrite signup_storage;
    destruct (find (has_email email) (users_of (World.storage w)))
      as [found|] eqn:Hfind
  | rewrite signin_storage;
    destruct (find (has_credentials email password)
                (users_of (World.storage w))) as [found|] eqn:Hfind
  | rewrite logout_storage
  | unfold logSongSelection; rewrite logActivity_storage;
    destruct (getCurrentUser (World.storage w)) as [user|] eqn:Hcur
  | unfold logRecordingComplete; rewrite logActivity_storage;
    destruct (getCurrentUser (World.storage w)) as [user|] eqn:Hcur
  | unfold logPayment; rewrite logActivity_storage;
    destruct (getCurrentUser (World.storage w)) as [user|] eqn:Hcur
  | rewrite savePurchase_storage ].

Ltac extends_with l := exists l; cbn; rewrite ?app_nil_r; reflexivity.

Lemma call_append_only (op : Op) (w : World.t) :
  (exists us, users_of (World.storage (exec (call op) w))
              = users_of (World.storage w) ++ us)
  /\ (exists acts, activities_of (World.storage (exec (call op) w))
                   = activities_of (World.storage w) ++ acts)
  /\ (exists ps, purchases_of (World.storage (exec (call op) w))
                 = purchases_of (World.storage w) ++ ps).
Proof.
  call_cases op w; cbv zeta;
    (split; [|split]);
    first [ extends_with (@nil User.t)
          | extends_with (@nil ActivityLog.t)
          | extends_with (@nil Purchase.t)
          | eexists; cbn; reflexivity ].
Qed.

(** X1: no sequence of calls to the client removes or rewrites what the
    store holds: the account list, the activity log and the purchase list
    after the calls are the ones before them, each followed by what was
    added. *)
Theorem run_append_only (ops : list Op) (w : World.t) :
  (exists us, users_of (World.storage (exec (run ops) w))
              = users_of (World.storage w) ++ us)
  /\ (exists acts, activities_of (World.storage (exec (run ops) w))
                   = activities_of (World.storage w) ++ acts)
  /\ (exists ps, purchases_of (World.storage (exec (run ops) w))
                 = purchases_of (World.storage w) ++ ps).
Proof.
  revert w. induction ops as [|op ops IH]; intro w.
  - repeat split; exists []; now rewrite app_nil_r.
  - rewrite exec_run_cons.
    destruct (IH (exec (call op) w)) as [[us Hu] [[acts Ha] [ps Hp]]].
    destruct (call_append_only op w) as [[us0 Hu0] [[acts0 Ha0] [ps0 Hp0]]].
    rewrite Hu, Ha, Hp, Hu0, Ha0, Hp0, <- !app_assoc.
    repeat split; eexists; reflexivity.
Qed.

Lemma no_email_iff (email : string) (users : list User.t) :
  find (has_email email) users = None
  <-> (forall u, In u users -> User.email u <> email).
Proof.
  split.
  - intros H u Hin He. apply (find_none _ _ H) in Hin.
    unfold has_email in Hin. rewrite He, String.eqb_refl in Hin.
    discriminate.
  - intro H. destruct (find (has_email email) users) as [u|] eqn:E;
      [|reflexivity].
    apply find_some in E. destruct E as [Hin He].
    apply String.eqb_eq in He. now destruct (H u Hin).
Qed.

(** The accounts one call adds: none, or one whose email no account of
    the store had. *)
Lemma call_new_accounts (op : Op) (w : World.t) :
  exists us,
    users_of (World.storage (exec (call op) w))
    = users_of (World.storage w) ++ us
    /\ (forall u, In u us ->
          forall v, In v (users_of (World.storage w)) ->
            User.email v <> User.email u).
Proof.
  call_cases op w; cbv zeta;
    try (exists []; cbn; rewrite ?app_nil_r; split;
         [reflexivity | intros ? []]).
  eexists. split; [cbn; reflexivity|].
  intros u [<-|[]]. cbn. now apply no_email_iff.
Qed.

Lemma NoDup_snoc {A : Type} (l : list A) (x : A) :
  NoDup l -> ~ In x l -> NoDup (l ++ [x]).
Proof.
  intros Hl Hx. apply (Permutation_NoDup (l := x :: l)).
  - apply Permutation_cons_append.
  - now constructor.
Qed.

Lemma call_keeps_emails_unique (op : Op) (w : World.t) :
  NoDup (map User.email (users_of (World.storage w))) ->
  NoDup (map User.email (users_of (World.storage (exec (call op) w)))).
Proof.
  call_cases op w; cbv zeta; cbn; try (intro H; exact H).
  intro H. unfold users_of in *. rewrite map_app. cbn.
  apply NoDup_snoc; [exact H|].
  intro Hin. apply in_map_iff in Hin. destruct Hin as [v [Hv Hin]].
  rewrite no_email_iff in Hfind. now apply (Hfind v Hin).
Qed.

(** X2: the client keeps emails unique: if no two accounts of the store
    share an email, no sequence of calls makes two accounts share one. *)
Theorem run_keeps_emails_unique (ops : list Op) (w : World.t) :
  NoDup (map User.email (users_of (World.storage w))) ->
  NoDup (map User.email (users_of (World.storage (exec (run ops) w)))).
Proof.
  revert w. induction ops as [|op ops IH]; intros w H.
  - exact H.
  - rewrite exec_run_cons. apply IH. now apply call_keeps_emails_unique.
Qed.

Lemma run_keeps_emails_unique_witness :
  NoDup
    (map User.email
       (users_of (World.storage (exec (run Scenario.visit) Sample.fresh)))).
Proof.
  apply (run_keeps_emails_unique Scenario.visit Sample.fresh).
  vm_compute. constructor.
Defined.

Ltac store_fields :=
  cbn [LocalStorage.auth_token LocalStorage.user_data
       LocalStorage.fallback_users LocalStorage.user_activities
       LocalStorage.user_purchases Js.parse_or_empty User.id
       User.without_password User.with_password User.email User.phone
       User.name User.created_at User.password ActivityLog.userId].

Lemma call_keeps_well_formed (op : Op) (w : World.t) :
  well_formed (World.storage w) ->
  well_formed (World.storage (exec (call op) w)).
Proof.
  intros [Hs [Hc Ho]].
  unfold well_formed, session_consistent, cached_is_account,
    owners_are_accounts, getCurrentUser, users_of, activities_of in *.
  call_cases op w; cbv zeta;
    unfold getCurrentUser, users_of, activities_of in *; store_fields;
    try (split; [|split]; assumption).
  - (* signup, a new account *)
    split; [reflexivity|]. split.
    + intros u [= <-]. eexists. split; [apply in_or_app; right; now left|].
      reflexivity.
    + apply Forall_app. split.
      * eapply Forall_impl; [|exact Ho]. intros a [acct [Hin Hid]].
        exists acct. split; [apply in_or_app; now left | exact Hid].
      * constructor; [|constructor]. eexists.
        split; [apply in_or_app; right; now left | reflexivity].
  - (* signin, credentials found *)
    apply find_some in Hfind. destruct Hfind as [Hin _].
    split; [reflexivity|]. split.
    + intros u [= <-]. now exists found.
    + apply Forall_app. split; [exact Ho|].
      constructor; [|constructor]. now exists found.
  - (* logout *)
    split; [exact I|]. split; [discriminate | exact Ho].
  - split; [exact Hs|]. split; [exact Hc|].
    apply Forall_app. split; [exact Ho|]. constructor; [|constructor].
    destruct (Hc user Hcur) as [acct [Hin <-]]. now exists acct.
  - split; [exact Hs|]. split; [exact Hc|].
    apply Forall_app. split; [exact Ho|]. constructor; [|constructor].
    destruct (Hc user Hcur) as [acct [Hin <-]]. now exists acct.
  - split; [exact Hs|]. split; [exact Hc|].
    apply Forall_app. split; [exact Ho|]. constructor; [|constructor].
    destruct (Hc user Hcur) as [acct [Hin <-]]. now exists acct.
Qed.

(** X3: the store stays coherent under every sequence of calls: the
    session token is the one derived from the cached account (or both are
    absent), the cached account is an account of the store less its
    secret, and every event of the log is owned by an account of the
    store. *)
Theorem run_keeps_well_formed (ops : list Op) (w : World.t) :
  well_formed (World.storage w) ->
  well_formed (World.storage (exec (run ops) w)).
Proof.
  revert w. induction ops as [|op ops IH]; intros w H.
  - exact H.
  - rewrite exec_run_cons. apply IH. now apply call_keeps_well_formed.
Qed.

Lemma run_keeps_well_formed_witness :
  well_formed (World.storage (exec (run Scenario.visit) Sample.fresh)).
Proof.
  apply (run_keeps_well_formed Scenario.visit Sample.fresh).
  split; [exact I|]. split; [discriminate | constructor].
Defined.

Lemma filter_snoc_none {A : Type} (p : A -> bool) (l us : list A) :
  (forall u, In u us -> p u = false) -> filter p (l ++ us) = filter p l.
Proof.
  intro H. rewrite filter_app.
  rewrite (ReportFacts.filter_none p us), app_nil_r; [reflexivity|].
  now apply Forall_forall.
Qed.

(** The accounts that carry a given email are the same after a call as
    before it, once one account carries it. *)
Lemma call_keeps_holders (op : Op) (w : World.t) (email : string)
    (holder : User.t) (others : list User.t) :
  filter (has_email email) (users_of (World.storage w)) = holder :: others ->
  filter (has_email email) (users_of (World.storage (exec (call op) w)))
  = holder :: others.
Proof.
  intro H. destruct (call_new_accounts op w) as [us [-> Hnew]].
  rewrite filter_snoc_none; [exact H|].
  intros u Hu. unfold has_email. apply String.eqb_neq.
  assert (Hin : In holder (filter (has_email email) (users_of (World.storage w))))
    by (rewrite H; now left).
  apply filter_In in Hin. destruct Hin as [Hin He].
  apply String.eqb_eq in He. intro Heq.
  apply (Hnew u Hu holder Hin). congruence.
Qed.

Lemma run_keeps_holders (ops : list Op) (w : World.t) (email : string)
    (holder : User.t) (others : list User.t) :
  filter (has_email email) (users_of (World.storage w)) = holder :: others ->
  filter (has_email email) (users_of (World.storage (exec (run ops) w)))
  = holder :: others.
Proof.
  revert w. induction ops as [|op ops IH]; intros w H.
  - exact H.
  - rewrite exec_run_cons. apply IH. now apply call_keeps_holders.
Qed.

Lemma find_in_filter {A : Type} (p q : A -> bool) (l : list A) :
  (forall x, p x = true -> q x = true) ->
  find p l = find p (filter q l).
Proof.
  intro H. induction l as [|x l IH]; simpl.
  - reflexivity.
  - destruct (p x) eqn:Px.
    + rewrite (H x Px). simpl. now rewrite Px.
    + destruct (q x); simpl; [rewrite Px|]; exact IH.
Qed.

Lemma signup_result (email password : string) (phone name : option string)
    (w : World.t) :
  eval (signup email password phone name) w
  = match find (has_email email) (users_of (World.storage w)) with
    | Some _ => duplicate_account
    | None =>
        let newUser :=
          User.mk (World.clock w (World.reads w)) email phone name
            (World.clock w (S (World.reads w))) None in
        AuthResponse.mk true "Account created successfully!" (Some newUser)
          (Some (token_of (User.id newUser)))
    end.
Proof.
  unfold eval, signup, fallbackSignup, bind, getStorage.
  fold (has_email email).
  destruct (find (has_email email) (users_of (World.storage w))); reflexivity.
Qed.

(** X4: an account outlives whatever the client does next: after a
    [signup] that created an account, and any sequence of later calls,
    [signin] with the email and the secret of the [signup] returns that
    account, [signin] with another secret returns the invalid-credentials
    result, and another [signup] with the email is rejected. *)
Theorem credentials_outlive_later_calls
    (w : World.t) (email password : string) (phone name : option string)
    (ops : list Op) :
  (forall u, In u (users_of (World.storage w)) -> User.email u <> email) ->
  let created := eval (signup email password phone name) w in
  let later := exec (run ops) (exec (signup email password phone name) w) in
  AuthResponse.success created = true
  /\ AuthResponse.success (eval (signin email password) later) = true
  /\ AuthResponse.user (eval (signin email password) later)
     = AuthResponse.user created
  /\ (forall other, other <> password ->
        eval (signin email other) later = invalid_credentials)
  /\ (forall other phone' name',
        eval (signup email other phone' name') later = duplicate_account).
Proof.
  intros Hnew created later.
  apply no_email_iff in Hnew.
  pose proof (AuthFacts.signup_fresh w email password phone name Hnew) as Hs.
  cbv zeta in Hs. fold created in Hs.
  assert (Hcreated : created = fst (signup email password phone name w))
    by reflexivity.
  assert (Hw1 : exec (signup email password phone name) w
                = snd (signup email password phone name w)) by reflexivity.
  destruct (signup email password phone name w) as [r w1].
  cbn [fst snd] in Hcreated, Hw1. destruct Hs as [Hr [Hu _]].
  set (account := User.with_password
                    (User.mk (World.clock w (World.reads w)) email phone name
                       (World.clock w (S (World.reads w))) None) password) in *.
  assert (Hholders : filter (has_email email) (users_of (World.storage later))
                     = [account]).
  { unfold later. apply run_keeps_holders. rewrite Hw1, Hu.
    rewrite filter_app, (ReportFacts.filter_none (has_email email)).
    - cbn. unfold has_email. cbn. now rewrite String.eqb_refl.
    - apply Forall_forall. intros u Hin. apply (find_none _ _ Hnew u Hin). }
  assert (Hfind : forall secret,
             find (has_credentials email secret)
               (users_of (World.storage later))
             = if String.eqb password secret then Some account else None).
  { intro secret.
    rewrite (find_in_filter _ (has_email email)), Hholders.
    - cbn. unfold has_credentials, password_is. cbn.
      rewrite String.eqb_refl. cbn.
      now destruct (String.eqb password secret).
    - intros x Hx. unfold has_credentials in Hx.
      apply andb_true_iff in Hx. tauto. }
  rewrite Hcreated, Hr. cbn [AuthResponse.success AuthResponse.user].
  split; [reflexivity|].
  rewrite AuthFacts.signin_result, Hfind, String.eqb_refl.
  cbn [AuthResponse.success AuthResponse.user].
  split; [reflexivity|]. split; [reflexivity|]. split.
  - intros other Hneq. rewrite AuthFacts.signin_result, Hfind.
    apply not_eq_sym, String.eqb_neq in Hneq. now rewrite Hneq.
  - intros other phone' name'.
    rewrite signup_result.
    destruct (find (has_email email) (users_of (World.storage later)))
      eqn:E; [reflexivity|].
    assert (Hin : In account (filter (has_email email)
                                (users_of (World.storage later))))
      by (rewrite Hholders; now left).
    apply filter_In in Hin. destruct Hin as [Hin He].
    rewrite (find_none _ _ E account Hin) in He. discriminate.
Qed.

Lemma credentials_outlive_later_calls_witness :
  AuthResponse.success
    (eval (signin "c@x.com" "p3")
       (exec (run Scenario.visit)
          (exec (signup "c@x.com" "p3" None None) Sample.fresh))) = true.
Proof.
  destruct (credentials_outlive_later_calls Sample.fresh "c@x.com" "p3"
              None None Scenario.visit) as [_ [H _]].
  - intros u [].
  - exact H.
Defined.
(** X14: in a coherent store [isAuthenticated] tells whether an account
    is signed in: it holds exactly when an account is cached, and the
    token is then the one derived from that account. *)
Theorem authenticated_iff_signed_in (ls : LocalStorage.t) :
  session_consistent ls ->
  (isAuthenticated ls = true <-> exists u, getCurrentUser ls = Some u)
  /\ (forall u, getCurrentUser ls = Some u ->
        getAuthToken ls = Some (token_of (User.id u))).
Proof.
  unfold session_consistent, isAuthenticated, getAuthToken, getCurrentUser.
  destruct (LocalStorage.auth_token ls) as [t|],
           (LocalStorage.user_data ls) as [u|]; intro H;
    try contradiction.
  - subst t. split.
    + split; [intros _; now exists u | intros _; reflexivity].
    + now intros u0 [= <-].
  - split.
    + split; [discriminate | intros [u Hu]; discriminate].
    + discriminate.
Qed.

Lemma authenticated_iff_signed_in_witness :
  isAuthenticated (World.storage (Sample.with_account Sample.fresh)) = true.
Proof.
  destruct (authenticated_iff_signed_in
              (World.storage (Sample.with_account Sample.fresh)))
    as [[_ H] _].
  - vm_compute. reflexivity.
  - apply H. eexists. vm_compute. reflexivity.
Defined.
End StoreLaws.

(** ** Sessions: what [signup], [signin] and [logout] leave behind *)

Module SessionLaws.
Import ApiClient Spec Client.

(** X5: a [signin] whose email and secret match no account changes
    nothing: it returns the invalid-credentials result and the world,
    the session of whoever is signed in included, is as before. *)
Theorem signin_rejected_changes_nothing
    (w : World.t) (email password : string) :
  (forall u, In u (users_of (World.storage w)) ->
     ~ (User.email u = email /\ User.password u = Some password)) ->
  signin email password w = (invalid_credentials, w).
Proof.
  intro H. unfold signin, fallbackSignin, bind, getStorage.
  fold (has_credentials email password).
  destruct (find (has_credentials email password)
              (users_of (World.storage w))) as [u|] eqn:E; [|reflexivity].
  apply find_some in E. destruct E as [Hin Hc].
  apply AuthFacts.has_credentials_iff in Hc. now destruct (H u Hin).
Qed.

Lemma signin_rejected_changes_nothing_witness :
  signin "a@x.com" "wrong" (Sample.with_account Sample.fresh)
  = (invalid_credentials, Sample.with_account Sample.fresh).
Proof.
  apply (signin_rejected_changes_nothing
           (Sample.with_account Sample.fresh) "a@x.com" "wrong").
  vm_compute. intros u [<-|[]] [_ H]. discriminate H.
Defined.

(** X6: a [signup] with an email no account has signs the new account
    in: the account and the token it returns are the cached account and
    the stored token, [isAuthenticated] holds, the account list gains the
    account with its secret, and the log gains exactly one event, a
    [signup] event owned by the account that records the email, the phone
    and the name. *)
Theorem signup_opens_session
    (w : World.t) (email password : string) (phone name : option string) :
  (forall u, In u (users_of (World.storage w)) -> User.email u <> email) ->
  let r := eval (signup email password phone name) w in
  let ls' := World.storage (exec (signup email password phone name) w) in
  exists account event,
    AuthResponse.success r = true
    /\ AuthResponse.user r = Some account
    /\ getCurrentUser ls' = Some account
    /\ User.email account = email
    /\ User.password account = None
    /\ AuthResponse.token r = Some (token_of (User.id account))
    /\ getAuthToken ls' = Some (token_of (User.id account))
    /\ isAuthenticated ls' = true
    /\ users_of ls'
       = users_of (World.storage w) ++ [User.with_password account password]
    /\ activities_of ls' = activities_of (World.storage w) ++ [event]
    /\ ActivityLog.userId event = User.id account
    /\ ActivityLog.eventType event = signup_event
    /\ ActivityLog.details event
       = Some (Details.mk None None None (Some email) phone name)
    /\ purchases_of ls' = purchases_of (World.storage w).
Proof.
  intros Hnew r ls'. apply StoreLaws.no_email_iff in Hnew.
  unfold r, ls'. rewrite StoreLaws.signup_result, StoreLaws.signup_storage, Hnew.
  cbv zeta. eexists. eexists.
  repeat (split; [reflexivity|]). reflexivity.
Qed.

Lemma signup_opens_session_witness :
  isAuthenticated
    (World.storage (exec (signup "a@x.com" "p1" None None) Sample.fresh))
  = true.
Proof.
  destruct (signup_opens_session Sample.fresh "a@x.com" "p1" None None)
    as [account [event H]].
  - intros u [].
  - decompose [and] H. assumption.
Defined.

(** X7: a [signin] that an account matches signs that account in, the
    first one of the list that matches: the account it returns, without
    the secret, is the cached account, the token is the stored token,
    [isAuthenticated] holds, the account list is unchanged, and the log
    gains exactly one event, a [signin] event owned by the account. *)
Theorem signin_opens_session (w : World.t) (email password : string) :
  (exists u, In u (users_of (World.storage w))
             /\ User.email u = email /\ User.password u = Some password) ->
  let r := eval (signin email password) w in
  let ls' := World.storage (exec (signin email password) w) in
  exists account event,
    In account (users_of (World.storage w))
    /\ User.email account = email
    /\ User.password account = Some password
    /\ AuthResponse.success r = true
    /\ AuthResponse.user r = Some (User.without_password account)
    /\ getCurrentUser ls' = Some (User.without_password account)
    /\ AuthResponse.token r = Some (token_of (User.id account))
    /\ getAuthToken ls' = Some (token_of (User.id account))
    /\ isAuthenticated ls' = true
    /\ users_of ls' = users_of (World.storage w)
    /\ activities_of ls' = activities_of (World.storage w) ++ [event]
    /\ ActivityLog.userId event = User.id account
    /\ ActivityLog.eventType event = signin_event
    /\ purchases_of ls' = purchases_of (World.storage w).
Proof.
  intros [u [Hin [He Hp]]] r ls'.
  unfold r, ls'. rewrite AuthFacts.signin_result, StoreLaws.signin_storage.
  destruct (find (has_credentials email password)
              (users_of (World.storage w))) as [account|] eqn:E.
  - apply find_some in E. destruct E as [Hacc Hc].
    apply AuthFacts.has_credentials_iff in Hc. destruct Hc as [Hce Hcp].
    exists account. eexists.
    split; [exact Hacc|]. split; [exact Hce|]. split; [exact Hcp|].
    repeat (split; [reflexivity|]). reflexivity.
  - apply (find_none _ _ E) in Hin.
    assert (Hc : has_credentials email password u = true)
      by now apply AuthFacts.has_credentials_iff.
    congruence.
Qed.

Lemma signin_opens_session_witness :
  isAuthenticated
    (World.storage
       (exec (signin "a@x.com" "p1")
          (exec logout (Sample.with_account Sample.fresh))))
  = true.
Proof.
  destruct (signin_opens_session
              (exec logout (Sample.with_account Sample.fresh))
              "a@x.com" "p1") as [account [event H]].
  - eexists. split; [vm_compute; left; reflexivity|].
    split; reflexivity.
  - decompose [and] H. assumption.
Defined.

(** X8: [logout] ends the session and nothing else: afterwards no token
    and no cached account are stored, [isAuthenticated] is false, the
    accounts, the log and the purchases are untouched, there is no report
    for the current account, and the three logging calls do nothing until
    someone signs in. *)
Theorem logout_ends_session (w : World.t) :
  let w' := exec logout w in
  isAuthenticated (World.storage w') = false
  /\ getAuthToken (World.storage w') = None
  /\ getCurrentUser (World.storage w') = None
  /\ users_of (World.storage w') = users_of (World.storage w)
  /\ activities_of (World.storage w') = activities_of (World.storage w)
  /\ purchases_of (World.storage w') = purchases_of (World.storage w)
  /\ getUserReport (World.storage w') None = None
  /\ (forall songTitle category amount,
        logSongSelection songTitle category w' = (tt, w')
        /\ logRecordingComplete songTitle category w' = (tt, w')
        /\ logPayment songTitle category amount w' = (tt, w')).
Proof.
  cbv zeta. repeat (split; [reflexivity|]).
  intros. repeat split.
Qed.
End SessionLaws.

(** ** Reports: what they hold and how logging changes them *)

Module ReportLaws.
Import ApiClient Spec Client.

Lemma count_sort {A : Type} (cmp : A -> A -> Z) (p : A -> bool) (l : list A) :
  List.length (filter p (Js.sort cmp l)) = List.length (filter p l).
Proof. apply ReportFacts.filter_length_perm, JsFacts.sort_perm. Qed.

Lemma count_snoc {A : Type} (p : A -> bool) (l : list A) (a : A) :
  List.length (filter p (l ++ [a]))
  = (List.length (filter p l) + if p a then 1 else 0)%nat.
Proof.
  rewrite filter_app, length_app. simpl. now destruct (p a).
Qed.

(** X9: one logged event moves exactly one tally: when the signed-in
    account logs an event, its report gets one more activity, the tally
    of the event's tag goes up by one and the other tallies stay; a
    [signup] event moves none of the four. *)
Theorem logging_bumps_one_tally
    (w : World.t) (u account : User.t) (userId : option Z)
    (e : EventType) (d : option Details.t) :
  getCurrentUser (World.storage w) = Some u ->
  resolved (World.storage w) userId = Some account ->
  User.id account = User.id u ->
  exists r r',
    getUserReport (World.storage w) userId = Some r
    /\ getUserReport (World.storage (exec (logActivity e d) w)) userId
       = Some r'
    /\ List.length (UserReport.activities r')
       = S (List.length (UserReport.activities r))
    /\ (forall tag, tag <> signup_event ->
          tally tag r' = (tally tag r + bump tag e)%nat)
    /\ total_of r' = (total_of r + if EventType_eqb e signup_event
                                   then 0 else 1)%nat.
Proof.
  intros Hu Hres Hid.
  destruct (ReportFacts.logActivity_appends w u e d Hu)
    as [a [Ha [He [_ [Hlog [Husers Hdata]]]]]].
  assert (Hres' : resolved (World.storage (exec (logActivity e d) w)) userId
                  = Some account)
    by (rewrite (ReportFacts.resolved_same_accounts _ _ _ Husers Hdata);
        exact Hres).
  rewrite (ReportFacts.getUserReport_resolved _ _ _ Hres).
  rewrite (ReportFacts.getUserReport_resolved _ _ _ Hres'). cbv zeta.
  rewrite Hlog, filter_app. cbn [filter].
  assert (Hown : owned_by (User.id account) a = true)
    by (apply ReportFacts.owned_by_iff; congruence).
  rewrite Hown.
  set (mine := filter (owned_by (User.id account))
                 (activities_of (World.storage w))).
  eexists. eexists. split; [reflexivity|]. split; [reflexivity|].
  cbn [UserReport.activities].
  assert (Hcount : forall tag,
             List.length (filter (is_event tag)
                            (Js.sort by_recency (mine ++ [a])))
             = (List.length (filter (is_event tag) (Js.sort by_recency mine))
                + bump tag e)%nat).
  { intro tag. rewrite !count_sort, count_snoc. unfold bump, is_event.
    now rewrite He. }
  split; [|split].
  - rewrite !JsFacts.sort_length, length_app. simpl. lia.
  - intros tag Htag. destruct tag; cbn [tally UserReport.totalSignIns
      UserReport.songsSelected UserReport.recordingsCompleted
      UserReport.paymentsCompleted]; try apply Hcount. congruence.
  - unfold total_of. cbn [UserReport.totalSignIns UserReport.songsSelected
      UserReport.recordingsCompleted UserReport.paymentsCompleted].
    rewrite !Hcount. unfold bump. destruct e; cbn; lia.
Qed.

Lemma logging_bumps_one_tally_witness :
  exists r r',
    getUserReport (World.storage (Sample.with_account Sample.fresh)) None
    = Some r
    /\ getUserReport
         (World.storage
            (exec (logActivity payment None) (Sample.with_account Sample.fresh)))
         None
       = Some r'
    /\ UserReport.paymentsCompleted r'
       = S (UserReport.paymentsCompleted r).
Proof.
  assert (Hu : getCurrentUser (World.storage (Sample.with_account Sample.fresh))
               = Some Sample.silent_account) by (vm_compute; reflexivity).
  destruct (logging_bumps_one_tally (Sample.with_account Sample.fresh)
              Sample.silent_account Sample.silent_account None payment None
              Hu Hu eq_refl) as [r [r' [Hr [Hr' [_ [Ht _]]]]]].
  exists r, r'. split; [exact Hr|]. split; [exact Hr'|].
  specialize (Ht payment). cbn in Ht. rewrite Ht by discriminate. lia.
Defined.

(** X10: a report holds exactly the events of its account: an event is
    among the activities of the report if and only if it is in the log
    and owned by the reported account; no activity is later than
    [lastActivity], and when there are activities one of them carries
    it. *)
Theorem report_holds_the_accounts_events
    (ls : LocalStorage.t) (userId : option Z) (r : UserReport.t) :
  getUserReport ls userId = Some r ->
  (forall a, In a (UserReport.activities r)
             <-> In a (activities_of ls)
                 /\ ActivityLog.userId a = UserReport.userId r)
  /\ Forall (fun a => ActivityLog.timestamp a <= UserReport.lastActivity r)
       (UserReport.activities r)
  /\ (UserReport.activities r <> [] ->
      exists a, In a (UserReport.activities r)
                /\ ActivityLog.timestamp a = UserReport.lastActivity r).
Proof.
  intro H. destruct (resolved ls userId) as [u|] eqn:Hres.
  - rewrite (ReportFacts.getUserReport_resolved _ _ _ Hres) in H.
    cbv zeta in H. injection H as <-.
    cbn [UserReport.activities UserReport.userId UserReport.lastActivity].
    set (acts := Js.sort by_recency
                   (filter (owned_by (User.id u)) (activities_of ls))).
    assert (Hsorted : StronglySorted not_older acts)
      by apply (JsFacts.sort_descending ActivityLog.timestamp).
    split; [|split].
    + intro a. unfold acts. rewrite JsFacts.sort_In, filter_In.
      now rewrite ReportFacts.owned_by_iff.
    + destruct acts as [|first rest]; [constructor|].
      inversion Hsorted as [|? ? _ Hfirst]; subst.
      constructor; [lia|].
      eapply Forall_impl; [|exact Hfirst]. unfold not_older. intros; lia.
    + destruct acts as [|first rest]; [congruence|].
      intros _. exists first. split; [now left | reflexivity].
  - rewrite (ReportFacts.getUserReport_absent _ _ Hres) in H. discriminate.
Qed.

Lemma report_holds_the_accounts_events_witness :
  Forall (fun a => ActivityLog.timestamp a
                   <= UserReport.lastActivity Sample.frozen_report)
    (UserReport.activities Sample.frozen_report).
Proof.
  destruct (report_holds_the_accounts_events
              (World.storage
                 (exec (logActivities Sample.signup_then_signin)
                    (Sample.with_silent_account Sample.frozen)))
              None Sample.frozen_report) as [_ [H _]].
  - vm_compute. reflexivity.
  - exact H.
Defined.

(** X11: what one account logs never shows in the report of another:
    when the signed-in account logs an event, the report of an account
    with a different identifier is the same after as before. *)
Theorem logging_leaves_other_reports
    (w : World.t) (u account : User.t) (userId : option Z)
    (e : EventType) (d : option Details.t) :
  getCurrentUser (World.storage w) = Some u ->
  resolved (World.storage w) userId = Some account ->
  User.id account <> User.id u ->
  getUserReport (World.storage (exec (logActivity e d) w)) userId
  = getUserReport (World.storage w) userId.
Proof.
  intros Hu Hres Hid.
  destruct (ReportFacts.logActivity_appends w u e d Hu)
    as [a [Ha [_ [_ [Hlog [Husers Hdata]]]]]].
  assert (Hres' : resolved (World.storage (exec (logActivity e d) w)) userId
                  = Some account)
    by (rewrite (ReportFacts.resolved_same_accounts _ _ _ Husers Hdata);
        exact Hres).
  rewrite (ReportFacts.getUserReport_resolved _ _ _ Hres).
  rewrite (ReportFacts.getUserReport_resolved _ _ _ Hres'). cbv zeta.
  rewrite Hlog, filter_app. cbn [filter].
  assert (Hown : owned_by (User.id account) a = false)
    by (unfold owned_by; apply Z.eqb_neq; congruence).
  rewrite Hown, app_nil_r. reflexivity.
Qed.

Lemma logging_leaves_other_reports_witness :
  getUserReport
    (World.storage
       (exec (logActivity payment None)
          (exec (signup "b@x.com" "p2" None None)
             (Sample.with_account Sample.fresh))))
    (Some 1700000000000)
  = getUserReport
      (World.storage
         (exec (signup "b@x.com" "p2" None None)
            (Sample.with_account Sample.fresh)))
      (Some 1700000000000).
Proof.
  apply (logging_leaves_other_reports
           (exec (signup "b@x.com" "p2" None None)
              (Sample.with_account Sample.fresh))
           (User.mk 1700000000004 "b@x.com" None None 1700000000005 None)
           Sample.silent_account (Some 1700000000000) payment None).
  - vm_compute. reflexivity.
  - vm_compute. reflexivity.
  - vm_compute. discriminate.
Defined.

Lemma StronglySorted_app_cross {A : Type} (R : A -> A -> Prop)
    (l l' : list A) :
  StronglySorted R (l ++ l') ->
  forall a b, In a l -> In b l' -> R a b.
Proof.
  induction l as [|x l IH]; simpl; intros H a b Ha Hb.
  - destruct Ha.
  - inversion H as [|? ? Hl Hx]; subst. destruct Ha as [<-|Ha].
    + rewrite Forall_forall in Hx. apply Hx, in_or_app. now right.
    + now apply (IH Hl a b).
Qed.

(** X12: [getTopUsers(k)] returns the [k] most active reports: with the
    reports it leaves out it makes up all the reports, none of those left
    out has a larger total than one that is returned, and it returns [k]
    reports, or all of them when there are fewer. *)
Theorem getTopUsers_are_the_most_active (ls : LocalStorage.t) (k : Z) :
  0 <= k ->
  exists rest,
    Permutation (getTopUsers ls (Some k) ++ rest)
      (map ranked (getAllUserReports ls))
    /\ (forall a b, In a (getTopUsers ls (Some k)) -> In b rest ->
          (RankedReport.totalActivity b <= RankedReport.totalActivity a)%nat)
    /\ Z.of_nat (List.length (getTopUsers ls (Some k)))
       = Z.min k (Z.of_nat (List.length (getAllUserReports ls))).
Proof.
  intro Hk.
  set (all := map ranked (getAllUserReports ls)).
  set (key := fun r : RankedReport.t => Z.of_nat (RankedReport.totalActivity r)).
  assert (Htop : getTopUsers ls (Some k)
                 = Js.slice0 (Js.sort by_totalActivity all) k) by reflexivity.
  destruct (JsFacts.slice0_prefix (Js.sort by_totalActivity all) k)
    as [rest Hrest].
  rewrite <- Htop in Hrest. exists rest. split; [|split].
  - rewrite <- Hrest. apply JsFacts.sort_perm.
  - pose proof (JsFacts.sort_descending key all) as Hd.
    change (Js.sort (by_key key) all) with (Js.sort by_totalActivity all) in Hd.
    rewrite Hrest in Hd. intros a b Ha Hb.
    pose proof (StronglySorted_app_cross _ _ _ Hd a b Ha Hb) as Hab.
    unfold descending, key in Hab. lia.
  - rewrite Htop. unfold Js.slice0.
    destruct (k <? 0) eqn:E; [lia|].
    rewrite length_firstn, JsFacts.sort_length. unfold all.
    rewrite length_map. lia.
Qed.

Lemma getTopUsers_are_the_most_active_witness :
  Z.of_nat (List.length (getTopUsers Sample.two_accounts (Some 1)))
  = Z.min 1 (Z.of_nat (List.length (getAllUserReports Sample.two_accounts))).
Proof.
  destruct (getTopUsers_are_the_most_active Sample.two_accounts 1)
    as [rest [_ [_ H]]].
  - lia.
  - exact H.
Defined.
Lemma find_unique {A : Type} (key : A -> Z) (l : list A) (u : A) :
  NoDup (map key l) -> In u l ->
  find (fun x => key x =? key u) l = Some u.
Proof.
  induction l as [|x l IH]; simpl; intros Hnd Hin; [destruct Hin|].
  inversion Hnd as [|? ? Hx Hl]; subst.
  destruct Hin as [->|Hin].
  - now rewrite Z.eqb_refl.
  - destruct (Z.eqb_spec (key x) (key u)) as [E|_]; [|now apply IH].
    exfalso. apply Hx. rewrite E. now apply in_map.
Qed.

(** The report [getAllUserReports] builds for an account of the store. *)
Lemma report_of_account (ls : LocalStorage.t) (u : User.t) :
  In u (users_of ls) -> User.id u <> 0 ->
  exists v r,
    getUserReport ls (Some (User.id u)) = Some r
    /\ In v (users_of ls)
    /\ UserReport.userId r = User.id u
    /\ UserReport.email r = User.email v
    /\ UserReport.artistName r = User.name v
    /\ (NoDup (map User.id (users_of ls)) -> v = u).
Proof.
  intros Hin Hid.
  assert (Hres : exists v, In v (users_of ls) /\ User.id v = User.id u
                   /\ resolved ls (Some (User.id u))
                      = Some (User.without_password v)
                   /\ (NoDup (map User.id (users_of ls)) -> v = u)).
  { unfold resolved, Js.truthy_number, getUserById.
    apply Z.eqb_neq in Hid. rewrite Hid. cbn [negb].
    destruct (find (fun x => User.id x =? User.id u) (users_of ls))
      as [v|] eqn:E.
    - exists v. pose proof (find_some _ _ E) as [Hv Hk].
      apply Z.eqb_eq in Hk. repeat split; try assumption.
      intro Hnd. rewrite (find_unique User.id _ u Hnd Hin) in E. congruence.
    - apply (find_none _ _ E) in Hin. rewrite Z.eqb_refl in Hin.
      discriminate. }
  destruct Hres as [v [Hv [Hk [Hres Huniq]]]]. exists v.
  rewrite (ReportFacts.getUserReport_resolved _ _ _ Hres). cbv zeta.
  eexists. split; [reflexivity|]. cbn. auto.
Qed.

(** X13: the reports of [getAllUserReports] line up with the accounts:
    when no account identifier is 0 there is one report per account, in
    the order of the account list and under the account's identifier; when
    the identifiers are moreover distinct, each report carries the email
    and the display name of its account. *)
Theorem reports_line_up_with_accounts (ls : LocalStorage.t) :
  Forall (fun u => User.id u <> 0) (users_of ls) ->
  map UserReport.userId (getAllUserReports ls) = map User.id (users_of ls)
  /\ (NoDup (map User.id (users_of ls)) ->
      map UserReport.email (getAllUserReports ls)
      = map User.email (users_of ls)
      /\ map UserReport.artistName (getAllUserReports ls)
         = map User.name (users_of ls)).
Proof.
  intro Hids. unfold getAllUserReports.
  assert (Hgen : forall l, incl l (users_of ls) ->
            map UserReport.userId
              (Js.filter_Boolean
                 (map (fun user => getUserReport ls (Some (User.id user))) l))
            = map User.id l
            /\ (NoDup (map User.id (users_of ls)) ->
                map UserReport.email
                  (Js.filter_Boolean
                     (map (fun user => getUserReport ls (Some (User.id user)))
                        l))
                = map User.email l
                /\ map UserReport.artistName
                     (Js.filter_Boolean
                        (map (fun user =>
                                getUserReport ls (Some (User.id user))) l))
                   = map User.name l)).
  { induction l as [|u l IH]; intro Hincl.
    - split; [reflexivity | intros _; split; reflexivity].
    - assert (Hu : In u (users_of ls)) by (apply Hincl; now left).
      rewrite Forall_forall in Hids.
      destruct (report_of_account ls u Hu (Hids u Hu))
        as [v [r [Hr [_ [Hid [He [Hn Huniq]]]]]]].
      destruct (IH (fun x Hx => Hincl x (or_intror Hx))) as [IHid IHrest].
      cbn [map]. rewrite Hr. cbn [Js.filter_Boolean map].
      split; [now rewrite Hid, IHid|].
      intro Hnd. destruct (IHrest Hnd) as [IHe IHn].
      rewrite He, Hn, IHe, IHn, (Huniq Hnd). split; reflexivity. }
  apply Hgen, incl_refl.
Qed.

Lemma reports_line_up_with_accounts_witness :
  map UserReport.userId (getAllUserReports Sample.two_accounts)
  = map User.id (users_of Sample.two_accounts).
Proof.
  destruct (reports_line_up_with_accounts Sample.two_accounts) as [H _].
  - vm_compute. repeat constructor; discriminate.
  - exact H.
Defined.
End ReportLaws.

(** ** The recording, from start to artifact *)

Module RecorderLaws.
Import KaraokeRecording KaraokeScreen.

Lemma no_live_track (tracks : list bool) :
  (List.length (filter (fun live => live) tracks) =? 0)%nat
  = negb (existsb (fun live => live) tracks).
Proof.
  induction tracks as [|[|] tracks IH]; simpl; auto.
Qed.

Lemma startRecording_starts_effect (h : Host) (s : Session) :
  startable h s = true ->
  state_of (startRecording h s) = Recording
  /\ isRecording (startRecording h s) = true
  /\ recordingTime (startRecording h s) = 0
  /\ recordingTimerRef (startRecording h s) = true
  /\ recordedChunksRef (startRecording h s) = []
  /\ mediaRecorderRef (startRecording h s)
     = Some (mkRecorder (negotiated h) true false)
  /\ recordedBlob (startRecording h s) = recordedBlob s
  /\ alerts (startRecording h s) = alerts s
  /\ hasPermission (startRecording h s) = true
  /\ karaokeVideoRef (startRecording h s)
     = match karaokeVideoRef s with
       | Some v => if videoLoadError s then Some v else Some (mkVideo 0 false)
       | None => None
       end.
Proof.
  destruct s as [rec blob time perm playing err video mr stream timer chunks al].
  unfold startable, startRecording, state_of, negotiated.
  cbn [streamRef hasPermission].
  destruct stream as [tracks|]; [|discriminate].
  intro H. apply andb_true_iff in H. destruct H as [H Hstart].
  apply andb_true_iff in H. destruct H as [H Hctor].
  apply andb_true_iff in H. destruct H as [Hperm Hlive].
  apply negb_true_iff in Hctor, Hstart. subst perm.
  rewrite no_live_track, Hlive, Hctor, Hstart.
  destruct video as [v|], err; cbn; auto 12.
Qed.

(** X15: when the session holds a granted stream with a live track and
    the host creates and starts the recorder, [startRecording] puts the
    session in [Recording]: the counter at 0 with its interval armed, the
    buffer of chunks empty, the recorder capturing in the negotiated
    format, the reference video playing from 0 unless it failed to load,
    and no alert. *)
Theorem startRecording_starts (h : Host) (s : Session) :
  startable h s = true ->
  let s' := startRecording h s in
  state_of s' = Recording
  /\ isRecording s' = true
  /\ recordingTime s' = 0
  /\ recordingTimerRef s' = true
  /\ recordedChunksRef s' = []
  /\ mediaRecorderRef s' = Some (mkRecorder (negotiated h) true false)
  /\ recordedBlob s' = recordedBlob s
  /\ alerts s' = alerts s
  /\ karaokeVideoRef s'
     = match karaokeVideoRef s with
       | Some v => if videoLoadError s then Some v else Some (mkVideo 0 false)
       | None => None
       end.
Proof.
  intros H s'. pose proof (startRecording_starts_effect h s H) as E.
  decompose [and] E. unfold s'. auto 12.
Qed.

Lemma startRecording_starts_witness :
  state_of (startRecording Sample.host Sample.granted) = Recording.
Proof.
  destruct (startRecording_starts Sample.host Sample.granted) as [H _].
  - reflexivity.
  - exact H.
Defined.

(** X16: when a guard of [startRecording] fails, or the host throws
    while the recorder is created or started, the session is not put in
    [Recording]: one alert is shown, and the recording flag, the counter,
    its interval, the artifact and the reference video are as before. *)
Theorem startRecording_refused (h : Host) (s : Session) :
  startable h s = false ->
  let s' := startRecording h s in
  (exists msg, alerts s' = alerts s ++ [msg])
  /\ isRecording s' = isRecording s
  /\ state_of s' = state_of s
  /\ recordingTime s' = recordingTime s
  /\ recordingTimerRef s' = recordingTimerRef s
  /\ recordedBlob s' = recordedBlob s
  /\ karaokeVideoRef s' = karaokeVideoRef s
  /\ match mediaRecorderRef s' with
     | Some r => mediaRecorderRef s' = mediaRecorderRef s \/ capturing r = false
     | None => True
     end.
Proof.
  destruct s as [rec blob time perm playing err video mr stream timer chunks al].
  unfold startable, startRecording, state_of.
  cbn [streamRef hasPermission].
  destruct stream as [tracks|].
  - rewrite no_live_track.
    destruct perm; cbn [negb andb];
      [destruct (existsb (fun live => live) tracks); cbn [negb andb];
       [destruct (constructor_throws h); cbn [negb andb];
        [|destruct (start_throws h); cbn [negb andb]; [|discriminate]]|]|];
      intros _; cbn;
      (split; [eexists; reflexivity|]); repeat split;
      try (destruct mr; auto).
  - intros _. cbn. split; [eexists; reflexivity|]. repeat split.
    destruct mr; auto.
Qed.

Lemma startRecording_refused_witness :
  isRecording (startRecording Sample.host initial) = false.
Proof.
  destruct (startRecording_refused Sample.host initial) as [_ [H _]].
  - reflexivity.
  - exact H.
Defined.

(** X17: the recorder's format follows the preference list: the type
    [startRecording] picks is supported by the host and no type listed
    before it is; it picks none, leaving the choice to the host, only
    when no listed type is supported. *)
Theorem pick_mimeType_prefers_earlier (h : Host) :
  (pick_mimeType h = EmptyString
   /\ Forall (fun t => isTypeSupported h t = false) supportedTypes)
  \/ (exists before after,
        supportedTypes = before ++ pick_mimeType h :: after
        /\ isTypeSupported h (pick_mimeType h) = true
        /\ Forall (fun t => isTypeSupported h t = false) before).
Proof.
  unfold pick_mimeType.
  generalize supportedTypes. intro l.
  induction l as [|t l IH]; simpl.
  - left. split; [reflexivity | constructor].
  - destruct (isTypeSupported h t) eqn:E.
    + right. exists [], l. repeat split; [exact E | constructor].
    + destruct IH as [[Hnone Hall] | [before [after [Hl [Hs Hb]]]]].
      * left. split; [exact Hnone | now constructor].
      * right. exists (t :: before), after.
        split; [simpl; now rewrite <- Hl|]. split; [exact Hs|].
        now constructor.
Qed.

Lemma ticks_cons_tick (evs : list Event) : ticks (Tick :: evs) = 1 + ticks evs.
Proof.
  unfold ticks. cbn [filter List.length]. rewrite Nat2Z.inj_succ. lia.
Qed.

Lemma ticks_cons_data (data : Blob) (evs : list Event) :
  ticks (DataAvailable data :: evs) = ticks evs.
Proof. reflexivity. Qed.

Lemma ticks_nonneg (evs : list Event) : 0 <= ticks evs.
Proof. unfold ticks. lia. Qed.

Lemma kept_positive (evs : list Event) :
  Forall (fun c => 0 < size c) (kept evs).
Proof.
  induction evs as [|[|data] evs IH]; simpl; auto.
  destruct (0 <? size data) eqn:E; [|exact IH].
  constructor; [now apply Z.ltb_lt | exact IH].
Qed.

(** While the interval is armed, a run of events moves the counter and
    the buffer and nothing else. *)
Lemma deliver_effect (evs : list Event) :
  forall s, recordingTimerRef s = true ->
    deliver evs s
    = set_recordedChunks (recordedChunksRef s ++ kept evs)
        (setRecordingTime (recordingTime s + ticks evs) s).
Proof.
  unfold deliver.
  induction evs as [|e evs IH]; intros s Ht.
  - destruct s. cbn. rewrite app_nil_r.
    unfold ticks. cbn. now rewrite Z.add_0_r.
  - cbn [fold_left]. rewrite IH.
    + destruct s as [rec blob time perm playing err video mr stream timer
                       chunks al].
      cbn in Ht. subst timer. destruct e as [|data].
      * rewrite ticks_cons_tick, Z.add_assoc. reflexivity.
      * rewrite ticks_cons_data. unfold deliver1, ondataavailable.
        cbn [kept]. destruct (0 <? size data); cbn;
          rewrite <- ?app_assoc; reflexivity.
    + destruct s, e as [|data]; cbn in Ht; subst;
        unfold deliver1, ondataavailable; cbn;
        [reflexivity | destruct (0 <? size data); reflexivity].
Qed.

(** X18: while a recording runs, the counter counts the ticks of the
    interval and the buffer holds, in order, the chunks that arrived with
    data; chunks of size 0 are dropped, and the session stays
    [Recording] with its recorder as started. *)
Theorem recording_counts_and_buffers
    (h : Host) (s : Session) (evs : list Event) :
  startable h s = true ->
  let s' := deliver evs (startRecording h s) in
  recordingTime s' = ticks evs
  /\ recordedChunksRef s' = kept evs
  /\ Forall (fun c => 0 < size c) (recordedChunksRef s')
  /\ state_of s' = Recording
  /\ mediaRecorderRef s' = Some (mkRecorder (negotiated h) true false)
  /\ alerts s' = alerts s.
Proof.
  intros Hs s'.
  destruct (startRecording_starts_effect h s Hs)
    as [Hstate [Hrec [Htime [Htimer [Hchunks [Hmr [_ [Hal _]]]]]]]].
  unfold s'. rewrite (deliver_effect evs _ Htimer).
  rewrite Htime, Hchunks. cbn [app].
  destruct (startRecording h s) as
    [rec blob time perm playing err video mr stream timer chunks al].
  unfold state_of in *. cbn in *. subst.
  repeat split; try assumption; try reflexivity.
  apply kept_positive.
Qed.

Lemma recording_counts_and_buffers_witness :
  recordingTime
    (deliver Scenario.take (startRecording Sample.host Sample.granted))
  = ticks Scenario.take.
Proof.
  destruct (recording_counts_and_buffers Sample.host Sample.granted
              Scenario.take) as [H _].
  - reflexivity.
  - exact H.
Defined.

Lemma size_of_chunks (chunks : list Blob) (type : string) :
  chunks <> [] ->
  Forall (fun c => 0 < size c) chunks ->
  0 < size (new_Blob chunks type).
Proof.
  unfold new_Blob. cbn [size]. intros Hne Hall.
  assert (Hsum : 0 <= fold_right (fun c acc => size c + acc) 0 chunks
                 /\ (chunks <> [] ->
                     0 < fold_right (fun c acc => size c + acc) 0 chunks)).
  { clear Hne. induction Hall as [|c l Hc _ [IH0 IH1]]; simpl.
    - split; [lia | congruence].
    - split; [lia | intros _; lia]. }
  now apply Hsum.
Qed.

(** The session when the stop event of a recording of at least one
    second has been handled. *)
Lemma stopped_session (h : Host) (s : Session) (evs : list Event) :
  startable h s = true ->
  1 <= ticks evs ->
  onstop (stopRecording (deliver evs (startRecording h s)))
  = let s0 := startRecording h s in
    let blob := new_Blob (kept evs) (artifact_type h) in
    let result :=
      mkSession false (recordedBlob s) (ticks evs) true false
        (videoLoadError s0)
        (match karaokeVideoRef s0 with
         | Some v => Some (mkVideo (currentTime v) true)
         | None => None
         end)
        (Some (mkRecorder (negotiated h) false false)) (streamRef s0) false
        (kept evs) (alerts s) in
    match karaokeVideoRef s0 with
    | Some _ =>
        if 0 <? size blob then setRecordedBlob (Some blob) result
        else alert no_data_alert result
    | None =>
        if 0 <? size blob
        then setRecordedBlob (Some blob)
               (setKaraokeVideoPlaying (karaokeVideoPlaying s0) result)
        else alert no_data_alert
               (setKaraokeVideoPlaying (karaokeVideoPlaying s0) result)
    end.
Proof.
  intros Hs Hticks.
  destruct (startRecording_starts_effect h s Hs)
    as [_ [Hrec [Htime [Htimer [Hchunks [Hmr [Hblob [Hal [Hperm _]]]]]]]]].
  rewrite (deliver_effect evs _ Htimer), Htime, Hchunks. cbv zeta.
  rewrite <- Hblob, <- Hal.
  destruct (startRecording h s) as
    [rec blob time perm playing err video mr stream timer chunks al].
  cbn in Hrec, Htimer, Hmr, Hperm. subst rec timer mr perm.
  assert (Hlt : (ticks evs <? 1) = false) by (apply Z.ltb_ge; lia).
  unfold stopRecording, onstop, pause_video, artifact_type, no_data_alert.
  cbn. rewrite Hlt.
  destruct video as [v|]; cbn;
    destruct (String.eqb (negotiated h) EmptyString); cbn;
    match goal with
    | |- context [0 <? ?x] => destruct (0 <? x)
    end; reflexivity.
Qed.

(** X19: a recording of at least one second that captured data ends in
    [Stopped] with an artifact: after [stopRecording] and the recorder's
    stop event the artifact is the buffered chunks put together, its size
    their sizes added up and more than 0, its type the recorder's or
    [video/webm]; the counter keeps the duration, the interval is cleared,
    and later ticks and stop requests change nothing. *)
Theorem recording_yields_artifact
    (h : Host) (s : Session) (evs : list Event) :
  startable h s = true ->
  1 <= ticks evs ->
  kept evs <> [] ->
  let done := onstop (stopRecording (deliver evs (startRecording h s))) in
  let artifact := new_Blob (kept evs) (artifact_type h) in
  state_of done = Stopped artifact
  /\ recordedBlob done = Some artifact
  /\ 0 < size artifact
  /\ recordingTime done = ticks evs
  /\ isRecording done = false
  /\ recordingTimerRef done = false
  /\ alerts done = alerts s
  /\ tick done = done
  /\ stopRecording done = done.
Proof.
  intros Hs Hticks Hkept done artifact.
  pose proof (size_of_chunks (kept evs) (artifact_type h) Hkept
                (kept_positive evs)) as Hsize.
  fold artifact in Hsize.
  unfold done. rewrite (stopped_session h s evs Hs Hticks). cbv zeta.
  fold artifact. apply Z.ltb_lt in Hsize. rewrite Hsize.
  apply Z.ltb_lt in Hsize.
  destruct (karaokeVideoRef (startRecording h s)); cbn;
    repeat split; try assumption; reflexivity.
Qed.

Lemma recording_yields_artifact_witness :
  state_of
    (onstop
       (stopRecording
          (deliver Scenario.take (startRecording Sample.host Sample.granted))))
  = Stopped (new_Blob (kept Scenario.take) (artifact_type Sample.host)).
Proof.
  destruct (recording_yields_artifact Sample.host Sample.granted
              Scenario.take) as [H _].
  - reflexivity.
  - vm_compute. discriminate.
  - vm_compute. discriminate.
  - exact H.
Defined.

(** X20: a recording that captured no data ends without an artifact:
    after [stopRecording] and the stop event the artifact is what it was
    before the recording, the failure is shown in one alert, and a session
    that started from [Ready] is [Ready] again. *)
Theorem recording_without_data
    (h : Host) (s : Session) (evs : list Event) :
  startable h s = true ->
  1 <= ticks evs ->
  kept evs = [] ->
  let done := onstop (stopRecording (deliver evs (startRecording h s))) in
  recordedBlob done = recordedBlob s
  /\ alerts done = alerts s ++ [no_data_alert]
  /\ isRecording done = false
  /\ recordingTimerRef done = false
  /\ (recordedBlob s = None -> state_of done = Ready).
Proof.
  intros Hs Hticks Hkept done.
  unfold done. rewrite (stopped_session h s evs Hs Hticks). cbv zeta.
  rewrite Hkept. cbn [new_Blob fold_right size Z.ltb Z.compare].
  destruct (karaokeVideoRef (startRecording h s)); cbn;
    repeat split; unfold state_of; cbn; intros ->; reflexivity.
Qed.

Lemma recording_without_data_witness :
  state_of
    (onstop
       (stopRecording
          (deliver Scenario.silent_take
             (startRecording Sample.host Sample.granted))))
  = Ready.
Proof.
  destruct (recording_without_data Sample.host Sample.granted
              Scenario.silent_take) as [_ [_ [_ [_ H]]]].
  - reflexivity.
  - vm_compute. discriminate.
  - reflexivity.
  - apply H. reflexivity.
Defined.
End RecorderLaws.

(** ** Song previews *)

Module PreviewLaws.
Import SongSelection.

Lemma sounding_set_audio (k : string) (a : Audio) (s : State) (x : string) :
  sounding (set_audio k a s) x
  = if String.eqb x k then negb (paused a) else sounding s x.
Proof.
  unfold sounding, set_audio, put. cbn.
  now destruct (String.eqb x k).
Qed.

Lemma mount_refs (songs : list Song) :
  forall s x,
    audioRefs (mount songs s) x
    = match audioRefs s x with
      | Some a => Some a
      | None => if existsb (fun song => String.eqb x (id song)) songs
                then Some (mkAudio true 0) else None
      end.
Proof.
  unfold mount. induction songs as [|song songs IH]; intros s x.
  - cbn. now destruct (audioRefs s x).
  - cbn [fold_left existsb]. rewrite IH. unfold mount1.
    destruct (audioRefs s (id song)) eqn:E.
    + destruct (audioRefs s x) eqn:Ex; [reflexivity|].
      destruct (String.eqb_spec x (id song)) as [->|]; [congruence|].
      reflexivity.
    + cbn. unfold put.
      destruct (String.eqb_spec x (id song)) as [->|].
      * now rewrite E.
      * reflexivity.
Qed.

Lemma mount_frame (songs : list Song) :
  forall s,
    currentlyPlaying (mount songs s) = currentlyPlaying s
    /\ selectedSong (mount songs s) = selectedSong s
    /\ audioLoadErrors (mount songs s) = audioLoadErrors s.
Proof.
  unfold mount. induction songs as [|song songs IH]; intro s.
  - auto.
  - cbn [fold_left]. destruct (IH (mount1 s song)) as [H1 [H2 H3]].
    rewrite H1, H2, H3. unfold mount1.
    destruct (audioRefs s (id song)); auto.
Qed.

(** X22: on mount every song of the catalog, and no other id, gets an
    audio element, paused at 0; nothing sounds, nothing is marked as
    playing and no song is selected. *)
Theorem mount_creates_silent_previews (songs : list Song) :
  let s := mount songs initial in
  (forall x, audioRefs s x
             = if existsb (fun song => String.eqb x (id song)) songs
               then Some (mkAudio true 0) else None)
  /\ (forall x, sounding s x = false)
  /\ exclusive s
  /\ currentlyPlaying s = None
  /\ handleProceed s = None.
Proof.
  cbv zeta.
  assert (Hrefs : forall x, audioRefs (mount songs initial) x
             = if existsb (fun song => String.eqb x (id song)) songs
               then Some (mkAudio true 0) else None)
    by (intro x; now rewrite mount_refs).
  assert (Hsilent : forall x, sounding (mount songs initial) x = false).
  { intro x. unfold sounding. rewrite Hrefs.
    now destruct (existsb (fun song => String.eqb x (id song)) songs). }
  destruct (mount_frame songs initial) as [Hc [Hsel _]].
  split; [exact Hrefs|]. split; [exact Hsilent|]. split.
  - intros x Hx. rewrite Hsilent in Hx. discriminate.
  - split; [exact Hc | exact Hsel].
Qed.

Lemma handleStop_effect (songId : string) (s : State) (audio : Audio) :
  audioRefs s songId = Some audio ->
  handleStop songId s
  = setCurrentlyPlaying None (set_audio songId (mkAudio true 0) s).
Proof. unfold handleStop. now intros ->. Qed.

Lemma exclusive_after_stop (current : string) (s : State) :
  exclusive s ->
  currentlyPlaying s = Some current ->
  forall a x, sounding (set_audio current (mkAudio true a) s) x = false.
Proof.
  intros Hex Hcur a x. rewrite sounding_set_audio.
  destruct (String.eqb_spec x current) as [->|Hne]; [reflexivity|].
  destruct (sounding s x) eqn:E; [|reflexivity].
  apply Hex in E. congruence.
Qed.

(** X23: the handlers keep previews exclusive: if no element sounds but
    the one marked as playing, and no element is kept under the empty id,
    this is still so after [handlePlay], whether or not the playback
    starts, after [handleSelectSong], and after [handlePause] and
    [handleStop] of the song that is marked as playing. *)
Theorem handlers_keep_previews_exclusive
    (s : State) (play_ok : bool) (songId : string) (song : Song) :
  exclusive s ->
  audioRefs s EmptyString = None ->
  exclusive (handlePlay play_ok songId s)
  /\ exclusive (handleSelectSong song s)
  /\ (currentlyPlaying s = Some songId ->
      exclusive (handlePause songId s) /\ exclusive (handleStop songId s)).
Proof.
  intros Hex Hempty.
  assert (Hstop : forall c, currentlyPlaying s = Some c ->
                    exclusive (handleStop c s)).
  { intros c Hc. unfold handleStop.
    destruct (audioRefs s c) as [a|]; [|exact Hex].
    intros x Hx. unfold sounding in Hx. cbn in Hx.
    change (sounding (set_audio c (mkAudio true 0) s) x = true) in Hx.
    now rewrite (exclusive_after_stop c s Hex Hc) in Hx. }
  split; [|split].
  - (* handlePlay *)
    unfold handlePlay.
    assert (Hgo : forall s1,
               exclusive s1 ->
               (forall x, x <> songId -> sounding s1 x = false) ->
               exclusive
                 match audioRefs s1 songId with
                 | Some audio =>
                     if negb (has songId (audioLoadErrors s1)) then
                       if play_ok then
                         setCurrentlyPlaying (Some songId)
                           (set_audio songId
                              (mkAudio false (currentTime audio)) s1)
                       else setAudioLoadErrors
                              (add songId (audioLoadErrors s1)) s1
                     else s1
                 | None => s1
                 end).
    { intros s1 Hex1 Hothers.
      destruct (audioRefs s1 songId) as [audio|]; [|exact Hex1].
      destruct (has songId (audioLoadErrors s1)); cbn [negb]; [exact Hex1|].
      destruct play_ok.
      - intros x Hx. cbn.
        destruct (String.eqb_spec x songId) as [->|Hne]; [reflexivity|].
        unfold sounding in Hx. cbn in Hx.
        change (sounding (set_audio songId
                            (mkAudio false (currentTime audio)) s1) x = true)
          in Hx.
        rewrite sounding_set_audio in Hx.
        apply String.eqb_neq in Hne. rewrite Hne in Hx.
        apply String.eqb_neq in Hne. rewrite (Hothers x Hne) in Hx.
        discriminate.
      - exact Hex1. }
    destruct (currentlyPlaying s) as [current|] eqn:Hcur.
    + destruct (truthy (Some current) && negb (String.eqb current songId))
        eqn:Hguard.
      * destruct (audioRefs s current) as [a|] eqn:Ha; [|exact Hex].
        apply Hgo.
        -- intros x Hx.
           now rewrite (exclusive_after_stop current s Hex Hcur) in Hx.
        -- intros x _. apply (exclusive_after_stop current s Hex Hcur).
      * apply Hgo; [exact Hex|].
        intros x Hne. destruct (sounding s x) eqn:E; [|reflexivity].
        pose proof (Hex x E) as Hx. rewrite Hcur in Hx.
        injection Hx as Hx. subst current.
        apply andb_false_iff in Hguard. destruct Hguard as [Ht|Hs].
        -- unfold truthy in Ht.
           apply negb_false_iff, String.eqb_eq in Ht. subst x.
           unfold sounding in E. rewrite Hempty in E. discriminate.
        -- apply negb_false_iff, String.eqb_eq in Hs. congruence.
    + apply Hgo; [exact Hex|].
      intros x _. destruct (sounding s x) eqn:E; [|reflexivity].
      apply Hex in E. congruence.
  - (* handleSelectSong *)
    unfold handleSelectSong.
    destruct (currentlyPlaying s) as [current|] eqn:Hcur.
    + destruct (truthy (Some current)).
      * intros x Hx. apply (Hstop current eq_refl x). exact Hx.
      * exact Hex.
    + exact Hex.
  - intro Hcur. split; [|now apply Hstop].
    unfold handlePause. destruct (audioRefs s songId) as [a|]; [|exact Hex].
    intros x Hx. unfold sounding in Hx. cbn in Hx.
    change (sounding (set_audio songId (mkAudio true (currentTime a)) s) x
            = true) in Hx.
    now rewrite (exclusive_after_stop songId s Hex Hcur) in Hx.
Qed.

Lemma mounted_exclusive :
  exclusive Scenario.mounted /\ audioRefs Scenario.mounted EmptyString = None.
Proof.
  split; [|reflexivity].
  intros x Hx. unfold Scenario.mounted, sounding in Hx.
  rewrite mount_refs in Hx. cbn in Hx.
  destruct (x =? "adele-one-and-only")%string; [discriminate|].
  destruct (x =? "neil-diamond-sweet-caroline")%string; discriminate.
Qed.

Lemma previewing_exclusive : exclusive Scenario.previewing.
Proof.
  intros x Hx. unfold sounding in Hx. cbn in Hx. unfold put in Hx.
  destruct (x =? "adele-one-and-only")%string eqn:E.
  - apply String.eqb_eq in E. subst x. reflexivity.
  - destruct (x =? "neil-diamond-sweet-caroline")%string; discriminate.
Qed.

Lemma handlers_keep_previews_exclusive_witness :
  exclusive Scenario.previewing.
Proof.
  destruct mounted_exclusive as [Hex Hempty].
  destruct (handlers_keep_previews_exclusive Scenario.mounted true
              "adele-one-and-only" Scenario.one_and_only Hex Hempty)
    as [H _].
  exact H.
Defined.

(** X24: starting a preview while another song is marked as playing
    stops that song: when the playback of a song that has an element and
    no load error starts, the song that was marked as playing is paused
    and rewound to 0, the new song sounds and is marked as playing, and
    every other element is left as it was; if, before, no element sounded
    but the one marked as playing, the new song is the only one that
    sounds. *)
Theorem handlePlay_switches_preview
    (s : State) (previous songId : string) (before audio : Audio) :
  currentlyPlaying s = Some previous ->
  previous <> EmptyString ->
  previous <> songId ->
  audioRefs s previous = Some before ->
  audioRefs s songId = Some audio ->
  has songId (audioLoadErrors s) = false ->
  let s' := handlePlay true songId s in
  currentlyPlaying s' = Some songId
  /\ audioRefs s' previous = Some (mkAudio true 0)
  /\ audioRefs s' songId = Some (mkAudio false (currentTime audio))
  /\ sounding s' previous = false
  /\ sounding s' songId = true
  /\ (forall x, x <> songId -> x <> previous ->
        audioRefs s' x = audioRefs s x)
  /\ (exclusive s -> forall x, sounding s' x = true <-> x = songId).
Proof.
  intros Hcur Hne Hdiff Hprev Hsong Herr.
  unfold handlePlay. rewrite Hcur, Hprev.
  assert (Ht : truthy (Some previous) = true)
    by (unfold truthy; apply negb_true_iff; now apply String.eqb_neq).
  apply String.eqb_neq in Hdiff. rewrite Ht, Hdiff. cbn [andb negb].
  assert (Hsong' : audioRefs (set_audio previous (mkAudio true 0) s) songId
                   = Some audio).
  { cbn. unfold put. rewrite String.eqb_sym, Hdiff. exact Hsong. }
  rewrite Hsong'. cbn [audioLoadErrors set_audio]. rewrite Herr.
  cbn [negb]. cbv zeta.
  assert (Hsounding : forall x,
             sounding
               (setCurrentlyPlaying (Some songId)
                  (set_audio songId (mkAudio false (currentTime audio))
                     (set_audio previous (mkAudio true 0) s))) x
             = if String.eqb x songId then true
               else if String.eqb x previous then false
               else sounding s x).
  { intro x.
    change (sounding
              (set_audio songId (mkAudio false (currentTime audio))
                 (set_audio previous (mkAudio true 0) s)) x
            = if String.eqb x songId then true
              else if String.eqb x previous then false
              else sounding s x).
    now rewrite !sounding_set_audio. }
  split; [reflexivity|]. split; [|split; [|split; [|split; [|split]]]].
  - cbn. unfold put. now rewrite String.eqb_refl, Hdiff.
  - cbn. unfold put. now rewrite String.eqb_refl.
  - now rewrite Hsounding, String.eqb_refl, Hdiff.
  - now rewrite Hsounding, String.eqb_refl.
  - intros x Hx Hp. cbn. unfold put.
    apply String.eqb_neq in Hx, Hp. now rewrite Hx, Hp.
  - intros Hex x. rewrite Hsounding.
    destruct (String.eqb_spec x songId) as [->|Hx]; [tauto|].
    destruct (String.eqb_spec x previous) as [->|Hp].
    + split; [discriminate | contradiction].
    + destruct (sounding s x) eqn:E.
      * apply Hex in E. congruence.
      * split; [discriminate | contradiction].
Qed.

Lemma handlePlay_switches_preview_witness :
  currentlyPlaying
    (handlePlay true "neil-diamond-sweet-caroline" Scenario.previewing)
  = Some "neil-diamond-sweet-caroline"
  /\ sounding
       (handlePlay true "neil-diamond-sweet-caroline" Scenario.previewing)
       "adele-one-and-only"
     = false.
Proof.
  destruct (handlePlay_switches_preview Scenario.previewing
              "adele-one-and-only" "neil-diamond-sweet-caroline"
              (mkAudio false 0) (mkAudio true 0))
    as [H [_ [_ [Hquiet _]]]].
  - reflexivity.
  - discriminate.
  - discriminate.
  - reflexivity.
  - reflexivity.
  - reflexivity.
  - split; [exact H | exact Hquiet].
Defined.

(** X25: [handleStop] on a card other than the one that plays clears
    the playing mark without pausing what plays, so that the next
    [handlePlay] finds nothing to stop: the two previews then sound at
    once. *)
Theorem stop_on_another_card_lets_previews_overlap
    (s : State) (playing other : string) (audio : Audio) :
  currentlyPlaying s = Some playing ->
  sounding s playing = true ->
  other <> playing ->
  audioRefs s other = Some audio ->
  has other (audioLoadErrors s) = false ->
  let stopped := handleStop other s in
  let replayed := handlePlay true other stopped in
  currentlyPlaying stopped = None
  /\ sounding stopped playing = true
  /\ currentlyPlaying replayed = Some other
  /\ sounding replayed playing = true
  /\ sounding replayed other = true.
Proof.
  intros Hcur Hplaying Hne Hother Herr.
  assert (Hne' : (playing =? other)%string = false)
    by (apply String.eqb_neq; congruence).
  cbv zeta. rewrite (handleStop_effect other s audio Hother).
  set (stopped := setCurrentlyPlaying None
                    (set_audio other (mkAudio true 0) s)).
  assert (Hstill : sounding stopped playing = true).
  { change (sounding (set_audio other (mkAudio true 0) s) playing = true).
    now rewrite sounding_set_audio, Hne'. }
  assert (Hreplayed : handlePlay true other stopped
                      = setCurrentlyPlaying (Some other)
                          (set_audio other (mkAudio false 0) stopped)).
  { unfold handlePlay. cbn [currentlyPlaying stopped setCurrentlyPlaying].
    assert (Href : audioRefs stopped other = Some (mkAudio true 0))
      by (cbn; unfold put; now rewrite String.eqb_refl).
    rewrite Href.
    change (audioLoadErrors stopped) with (audioLoadErrors s).
    rewrite Herr. reflexivity. }
  rewrite Hreplayed.
  split; [reflexivity|]. split; [exact Hstill|]. split; [reflexivity|].
  change (sounding (set_audio other (mkAudio false 0) stopped) playing = true
          /\ sounding (set_audio other (mkAudio false 0) stopped) other
             = true).
  rewrite !sounding_set_audio, Hne', String.eqb_refl.
  split; [exact Hstill | reflexivity].
Qed.

Lemma stop_on_another_card_lets_previews_overlap_witness :
  sounding
    (handlePlay true "neil-diamond-sweet-caroline"
       (handleStop "neil-diamond-sweet-caroline" Scenario.previewing))
    "adele-one-and-only"
  = true.
Proof.
  destruct (stop_on_another_card_lets_previews_overlap Scenario.previewing
              "adele-one-and-only" "neil-diamond-sweet-caroline"
              (mkAudio true 0)) as [_ [_ [_ [H _]]]].
  - reflexivity.
  - reflexivity.
  - discriminate.
  - reflexivity.
  - reflexivity.
  - exact H.
Defined.

(** X26: selecting a song stops the preview: when previews are exclusive
    and the song marked as playing has its element, [handleSelectSong]
    leaves every element silent and no song marked as playing, and
    [handleProceed] then hands over the selected song. *)
Theorem handleSelectSong_silences_and_selects (s : State) (song : Song) :
  exclusive s ->
  audioRefs s EmptyString = None ->
  (forall current, currentlyPlaying s = Some current ->
     audioRefs s current <> None) ->
  let s' := handleSelectSong song s in
  (forall x, sounding s' x = false)
  /\ currentlyPlaying s' = None
  /\ selectedSong s' = Some song
  /\ handleProceed s' = Some song.
Proof.
  intros Hex Hempty Href. unfold handleSelectSong, handleProceed.
  destruct (currentlyPlaying s) as [current|] eqn:Hcur.
  - destruct (audioRefs s current) as [a|] eqn:Ha;
      [|now destruct (Href current eq_refl)].
    assert (Ht : truthy (Some current) = true).
    { unfold truthy. apply negb_true_iff, String.eqb_neq. intros ->.
      congruence. }
    rewrite Ht, (handleStop_effect current s a Ha). cbv zeta.
    repeat split. intro x.
    change (sounding (set_audio current (mkAudio true 0) s) x = false).
    apply (exclusive_after_stop current s Hex Hcur).
  - cbv zeta. repeat split; [|exact Hcur]. intro x.
    change (sounding s x = false).
    destruct (sounding s x) eqn:E; [|reflexivity].
    apply Hex in E. congruence.
Qed.

Lemma handleSelectSong_silences_and_selects_witness :
  handleProceed (handleSelectSong Scenario.sweet_caroline Scenario.mounted)
  = Some Scenario.sweet_caroline.
Proof.
  destruct mounted_exclusive as [Hex Hempty].
  destruct (handleSelectSong_silences_and_selects Scenario.mounted
              Scenario.sweet_caroline Hex Hempty) as [_ [_ [_ H]]].
  - intros current Hc. discriminate Hc.
  - exact H.
Defined.

Lemma has_add (x : string) (set : list string) : has x (add x set) = true.
Proof.
  unfold add. destruct (has x set) eqn:E; [exact E|].
  unfold has. rewrite existsb_app. cbn. rewrite String.eqb_refl.
  apply orb_true_iff. right. reflexivity.
Qed.

(** X27: a preview that fails to start is not tried again: when
    [audio.play()] rejects, the song is added to the load errors and its
    element is left as it was; a preview that played before is stopped
    and rewound all the same, yet stays marked as playing; and a later
    [handlePlay] of the failed song changes neither the elements, nor the
    mark, nor the load errors. *)
Theorem failed_preview_is_not_retried
    (s : State) (songId : string) (audio : Audio) (play_ok : bool) :
  audioRefs s songId = Some audio ->
  has songId (audioLoadErrors s) = false ->
  (forall current, currentlyPlaying s = Some current ->
     audioRefs s current <> None) ->
  let failed := handlePlay false songId s in
  let retried := handlePlay play_ok songId failed in
  has songId (audioLoadErrors failed) = true
  /\ audioRefs failed songId = Some audio
  /\ currentlyPlaying failed = currentlyPlaying s
  /\ (forall previous,
        currentlyPlaying s = Some previous ->
        previous <> EmptyString -> previous <> songId ->
        audioRefs failed previous = Some (mkAudio true 0))
  /\ audioLoadErrors retried = audioLoadErrors failed
  /\ currentlyPlaying retried = currentlyPlaying failed
  /\ (forall x, audioRefs retried x = audioRefs failed x).
Proof.
  intros Href Herr Hrefs failed retried.
  pose proof (has_add songId (audioLoadErrors s)) as Hadd.
  destruct (currentlyPlaying s) as [c|] eqn:Hc.
  - destruct (truthy (Some c) && negb (c =? songId)%string) eqn:G.
    + destruct (audioRefs s c) as [a|] eqn:Hrc;
        [|now destruct (Hrefs c eq_refl)].
      assert (Hsc : (songId =? c)%string = false).
      { apply andb_true_iff in G. destruct G as [_ G].
        apply negb_true_iff in G. now rewrite String.eqb_sym. }
      set (s1 := set_audio c (mkAudio true 0) s).
      assert (R1 : audioRefs s1 songId = Some audio)
        by (cbn; unfold put; now rewrite Hsc).
      set (f := setAudioLoadErrors (add songId (audioLoadErrors s)) s1).
      assert (F : failed = f).
      { unfold failed, handlePlay. rewrite Hc, G, Hrc. cbv beta iota zeta.
        fold s1. rewrite R1.
        change (audioLoadErrors s1) with (audioLoadErrors s).
        now rewrite Herr. }
      assert (R : retried = set_audio c (mkAudio true 0) f).
      { unfold retried. rewrite F. unfold handlePlay.
        change (currentlyPlaying f) with (currentlyPlaying s).
        rewrite Hc, G.
        assert (Rc : audioRefs f c = Some (mkAudio true 0))
          by (cbn; unfold put; now rewrite String.eqb_refl).
        rewrite Rc. cbv beta iota zeta.
        assert (R2 : audioRefs (set_audio c (mkAudio true 0) f) songId
                     = Some audio)
          by (cbn; unfold put; now rewrite !Hsc).
        rewrite R2.
        change (audioLoadErrors (set_audio c (mkAudio true 0) f))
          with (add songId (audioLoadErrors s)).
        now rewrite Hadd. }
      rewrite R, F. clear F R failed retried.
      split; [exact Hadd|]. split; [exact R1|]. split; [exact Hc|]. split.
      * intros previous [= <-] _ _. cbn. unfold put.
        now rewrite String.eqb_refl.
      * split; [reflexivity|]. split; [reflexivity|].
        intro x. cbn. unfold put. now destruct (x =? c)%string.
    + set (f := setAudioLoadErrors (add songId (audioLoadErrors s)) s).
      assert (F : failed = f).
      { unfold failed, handlePlay. rewrite Hc, G. cbv beta iota zeta.
        now rewrite Href, Herr. }
      assert (R : retried = f).
      { unfold retried. rewrite F. unfold handlePlay.
        change (currentlyPlaying f) with (currentlyPlaying s).
        rewrite Hc, G. cbv beta iota zeta.
        change (audioRefs f songId) with (audioRefs s songId).
        change (audioLoadErrors f) with (add songId (audioLoadErrors s)).
        now rewrite Href, Hadd. }
      rewrite R, F. clear F R failed retried.
      split; [exact Hadd|]. split; [exact Href|]. split; [exact Hc|].
      split; [|auto].
      intros previous [= <-] Hne Hdiff. exfalso.
      apply andb_false_iff in G. destruct G as [G|G].
      * unfold truthy in G. apply negb_false_iff, String.eqb_eq in G.
        contradiction.
      * apply negb_false_iff, String.eqb_eq in G. contradiction.
  - set (f := setAudioLoadErrors (add songId (audioLoadErrors s)) s).
    assert (F : failed = f).
    { unfold failed, handlePlay. rewrite Hc. cbv beta iota zeta.
      now rewrite Href, Herr. }
    assert (R : retried = f).
    { unfold retried. rewrite F. unfold handlePlay.
      change (currentlyPlaying f) with (currentlyPlaying s).
      rewrite Hc. cbv beta iota zeta.
      change (audioRefs f songId) with (audioRefs s songId).
      change (audioLoadErrors f) with (add songId (audioLoadErrors s)).
      now rewrite Href, Hadd. }
    rewrite R, F. clear F R failed retried.
    split; [exact Hadd|]. split; [exact Href|]. split; [exact Hc|].
    split; [discriminate | auto].
Qed.

Lemma failed_preview_is_not_retried_witness :
  has "neil-diamond-sweet-caroline"
    (audioLoadErrors
       (handlePlay false "neil-diamond-sweet-caroline" Scenario.previewing))
  = true.
Proof.
  destruct (failed_preview_is_not_retried Scenario.previewing
              "neil-diamond-sweet-caroline" (mkAudio true 0) true) as [H _].
  - reflexivity.
  - reflexivity.
  - intros current [= <-]. discriminate.
  - exact H.
Defined.
End PreviewLaws.

(** ** The display of the elapsed time *)

Module DisplayLaws.
Import KaraokeScreen Spec.

Lemma no_colon_uint (d : Decimal.uint) :
  contains ":" (NilEmpty.string_of_uint d) = false.
Proof.
  unfold contains. induction d; simpl; try reflexivity; exact IHd.
Qed.

Lemma zeros_append (k : nat) (s : string) :
  (string_of_list_ascii (repeat "0"%char k) ++ s)%string
  = Nat.iter k (String "0") s.
Proof.
  induction k as [|k IH]; simpl; [reflexivity | now rewrite IH].
Qed.

Lemma no_colon_padded (n : nat) (d : Decimal.uint) :
  contains ":" (padStart n "0" (NilEmpty.string_of_uint d)) = false.
Proof.
  unfold padStart. rewrite zeros_append.
  induction (n - String.length (NilEmpty.string_of_uint d))%nat as [|k IH].
  - apply no_colon_uint.
  - exact IH.
Qed.

Lemma read_padded (n : nat) (d : Decimal.uint) :
  read_decimal (padStart n "0" (NilEmpty.string_of_uint d))
  = Some (Z.of_uint d).
Proof.
  unfold padStart, read_decimal. rewrite zeros_append.
  assert (H : forall k,
             exists d', NilEmpty.uint_of_string
                          (Nat.iter k (String "0") (NilEmpty.string_of_uint d))
                        = Some d'
                        /\ Z.of_uint d' = Z.of_uint d).
  { induction k as [|k [d' [Hd' Hz]]].
    - exists d. split; [apply NilEmpty.usu | reflexivity].
    - exists (Decimal.D0 d'). split; [|exact Hz].
      simpl. now rewrite Hd'. }
  destruct (H (n - String.length (NilEmpty.string_of_uint d))%nat)
    as [d' [Hd' Hz]].
  now rewrite Hd', Hz.
Qed.

(** The decimal text of a number that is not negative. *)
Lemma string_of_nonneg (z : Z) :
  0 <= z ->
  exists d, Js.string_of_Z z = NilEmpty.string_of_uint d /\ Z.of_uint d = z.
Proof.
  intro Hz. unfold Js.string_of_Z.
  pose proof (DecimalZ.of_to z) as Hof.
  destruct z as [|p|p]; [| |lia].
  - exists (Decimal.D0 Decimal.Nil). split; reflexivity.
  - cbn [Z.to_int] in *. exists (Pos.to_uint p). split; [|exact Hof].
    cbn [NilZero.string_of_int]. unfold NilZero.string_of_uint.
    destruct (Pos.to_uint p) eqn:E; try reflexivity.
    cbn in Hof. discriminate.
Qed.

(** X21: [formatTime] loses nothing: for a number of seconds that is not
    negative the text is the minutes, a colon and the seconds, the seconds
    below 60, and reading the two decimal numbers back gives the number of
    seconds; so two different durations never show the same text. *)
Theorem formatTime_reads_back (seconds : Z) :
  0 <= seconds ->
  formatTime seconds
  = (padStart 2 "0" (Js.string_of_Z (seconds / 60)) ++ ":"
     ++ padStart 2 "0" (Js.string_of_Z (seconds mod 60)))%string
  /\ 0 <= seconds mod 60 < 60
  /\ read_time (formatTime seconds) = Some seconds
  /\ (forall other, 0 <= other ->
        formatTime other = formatTime seconds -> other = seconds).
Proof.
  assert (Hread : forall z, 0 <= z -> read_time (formatTime z) = Some z).
  { intros z Hz. unfold formatTime. cbv zeta.
    rewrite (Z.rem_mod_nonneg z 60) by lia.
    destruct (string_of_nonneg (z / 60)) as [dm [Hm Hzm]];
      [apply Z.div_pos; lia|].
    destruct (string_of_nonneg (z mod 60)) as [ds [Hs Hzs]];
      [apply Z.mod_pos_bound; lia|].
    rewrite Hm, Hs. unfold read_time.
    change (padStart 2 "0" (NilEmpty.string_of_uint dm) ++ ":"
            ++ padStart 2 "0" (NilEmpty.string_of_uint ds))%string
      with (padStart 2 "0" (NilEmpty.string_of_uint dm)
            ++ String ":" (padStart 2 "0" (NilEmpty.string_of_uint ds)))%string.
    rewrite (ExportFacts.split_at_first _ _ _ (no_colon_padded 2 dm)).
    rewrite (ExportFacts.split_at_one_line _ _ (no_colon_padded 2 ds)).
    rewrite !read_padded, Hzm, Hzs. f_equal.
    pose proof (Z.div_mod z 60). lia. }
  intro Hs. split; [|split; [|split]].
  - unfold formatTime. cbv zeta. now rewrite (Z.rem_mod_nonneg seconds 60) by lia.
  - apply Z.mod_pos_bound. lia.
  - now apply Hread.
  - intros other Ho Heq.
    pose proof (Hread other Ho) as H1. rewrite Heq, (Hread seconds Hs) in H1.
    congruence.
Qed.

Lemma formatTime_reads_back_witness :
  read_time (formatTime 125) = Some 125.
Proof.
  destruct (formatTime_reads_back 125) as [_ [_ [H _]]].
  - lia.
  - exact H.
Defined.
End DisplayLaws.
